(** * speed_observatory: the time-advancement and visibility-gating engine

    A shallow embedding of [Speed_observatory]
    (python/lsst/sims/speedObservatory/speed_observatory.py).

    Conventions of the embedding.
    - A Python float is an exact rational ([Q]); [==] is the value equality
      of [Q].  Rounding and NaN are outside the model.
    - A numpy array indexed by a healpix id is a function [nat -> Q].
    - The attributes of the Python object that the methods assign are the
      fields of [State]; the attributes fixed by [__init__] are the fields of
      [Config]; the collaborators (cloud model, ephemeris, sky model, seeing
      model, slew interpolator, downtime calendars, coordinate transforms)
      are the fields of [World], pure functions of their arguments.
    - A request is a one-row numpy record array, as the unit test of the
      package builds it: [observation['filter'][0]] is the filter name of
      that row.
    - A Python exception ends a call: [Raised s e] carries the state the
      object is left in. *)

From Stdlib Require Import String Ascii.
From Stdlib Require Import QArith Qround ZArith List Bool Lia Lqa.
From Stdlib Require Import Sorted.
Import ListNotations.

Local Open Scope Q_scope.

(** ** Numbers *)

Module Num.

(** [x < y] on floats, as a boolean. *)
Definition Qlt_bool (x y : Q) : bool := negb (Qle_bool y x).

(** [sec2days = 1./(3600.*24.)] *)
Definition sec2days : Q := 1 / (3600 * 24).

End Num.
Import Num.

(** ** numpy.searchsorted (side = 'left')

    The bisection numpy runs on the array: [lo] and [hi] close in on the
    insertion point; [fuel] bounds the number of halvings. *)

Module Searchsorted.

Fixpoint bisect (fuel : nat) (a : list Q) (v : Q) (lo hi : nat) : nat :=
  match fuel with
  | O => lo
  | S fuel' =>
      if (lo <? hi)%nat then
        let mid := (lo + (hi - lo) / 2)%nat in
        if Qlt_bool (nth mid a 0) v
        then bisect fuel' a v (S mid) hi
        else bisect fuel' a v lo mid
      else lo
  end.

Definition searchsorted (a : list Q) (v : Q) : nat :=
  bisect (length a) a v 0 (length a).

(** The number of entries strictly below [v]. *)
Definition count_below (a : list Q) (v : Q) : nat :=
  length (filter (fun b => Qlt_bool b v) a).

(** Ascending order of a table, index-wise. *)
Definition ascending (a : list Q) : Prop :=
  forall i j, (i <= j < length a)%nat -> nth i a 0 <= nth j a 0.

Definition strictly_ascending (a : list Q) : Prop :=
  forall i j, (i < j < length a)%nat -> nth i a 0 < nth j a 0.

(** [r] splits the table: below it the entries are under [v], from it on
    they are not.  This is what the bisection keeps true of [lo] and [hi]. *)
Definition split_at (a : list Q) (v : Q) (r : nat) : Prop :=
  (forall i, (i < r)%nat -> nth i a 0 < v) /\
  (forall i, (r <= i < length a)%nat -> v <= nth i a 0).

(** A check of [ascending] that evaluates. *)
Fixpoint ascending_bool (a : list Q) : bool :=
  match a with
  | x :: (y :: _) as t => Qle_bool x y && ascending_bool t
  | _ => true
  end.

End Searchsorted.
Import Searchsorted.

(** ** The tables __init__ builds

    generate_sunsets, after the ephemeris loop.

    Lines 403-408: the array [setting] holds the previous sunset of every
    sample instant; it is rounded to a hundredth of a day, reduced to the
    first occurrence of each rounded value in ascending order of these
    values, and cut before [mjd_start]. *)

Module Tables.

(** [np.round]: to the nearest integer, halves to the even one. *)
Definition round_half_even (q : Q) : Z :=
  let f := Qfloor q in
  let r := q - inject_Z f in
  if Qlt_bool r (1 # 2) then f
  else if Qlt_bool (1 # 2) r then (f + 1)%Z
  else if Z.even f then f else (f + 1)%Z.

(** [u, indx = np.unique(keys, return_index=True)] followed by
    [values[indx]]: rows [(key, value)] in ascending order of the keys, each
    key with the value of its first occurrence.  The rows are entered from
    left to right, so a key that is already there keeps its value. *)
Fixpoint insert_first (k : Z) (x : Q) (l : list (Z * Q)) : list (Z * Q) :=
  match l with
  | [] => [(k, x)]
  | (k', x') :: t =>
      if (k <? k')%Z then (k, x) :: l
      else if (k =? k')%Z then l
      else (k', x') :: insert_first k x t
  end.

Definition unique_first (rows : list (Z * Q)) : list (Z * Q) :=
  fold_left (fun acc r => insert_first (fst r) (snd r) acc) rows [].

Definition generate_sunsets (setting : list Q) (mjd_start : Q) : list Q :=
  let setting_rough := map (fun x => round_half_even (x * 100)) setting in
  let table := map snd (unique_first (combine setting_rough setting)) in
  let left := searchsorted table mjd_start in
  skipn left table.

(** [list.sort()] on integers. *)
Fixpoint insert_sorted (x : Z) (l : list Z) : list Z :=
  match l with
  | [] => [x]
  | y :: t => if (x <=? y)%Z then x :: l else y :: insert_sorted x t
  end.

Definition sort (l : list Z) : list Z := fold_right insert_sorted [] l.

(** [range(start, start + length, 1)] *)
Definition range (start length : Z) : list Z :=
  map (fun i => (start + Z.of_nat i)%Z) (seq 0 (Z.to_nat length)).

End Tables.
Import Tables.

(** ** The all-sky slew map: its data *)

Module SkyMap.

(** What [slewtime_map] reads besides the state: the pixel centres
    ([self.ra_all_sky], [self.dec_all_sky], row by row) and
    [self.alt_limit]. *)
Record AllSky := {
  pixels : list (Q * Q);
  alt_limit : Q
}.

(** [hp.UNSEEN = -1.6375e+30] *)
Definition UNSEEN : Q := inject_Z (- 16375 * 10 ^ 26).

Inductive map_error := MapTypeError | MapValueError.

(** What [slewtime_map] returns: the float [0.] or an array. *)
Inductive slewtimes := Scalar (t : Q) | Map (m : list Q).

(** [np.max] of an array; [None] is the ValueError of an empty one. *)
Fixpoint np_max (l : list Q) : option Q :=
  match l with
  | [] => None
  | x :: t => match np_max t with
              | None => Some x
              | Some m => Some (if Qlt_bool m x then x else m)
              end
  end.

(** [result[good] = values] on an array filled with [UNSEEN]; [good] as a
    mask. *)
Fixpoint scatter (good : list bool) (values : list Q) : list Q :=
  match good with
  | [] => []
  | true :: good' =>
      match values with
      | v :: values' => v :: scatter good' values'
      | [] => UNSEEN :: scatter good' []
      end
  | false :: good' => UNSEEN :: scatter good' values
  end.

End SkyMap.
Import SkyMap.

(** ** The observatory *)

Module Model.

(** The attributes [__init__] fixes from its parameters. *)
Record Config := {
  mjd_start : Q;
  readtime : Q;
  f_change_time : Q;
  shutter_time : Q;
  sun_limit : Q;          (* self.sun_limit, radians *)
  cloud_limit : Q;
  cloud_step_arg : Q      (* the [cloud_step] parameter, minutes *)
}.

(** [self.cloud_step = cloud_step/60./24.] *)
Definition cloud_step (c : Config) : Q := cloud_step_arg c / 60 / 24.

(** The collaborators, pure functions of their arguments, and what
    [__init__] reads from them once. *)
Record World := {
  setting : list Q;                           (* ephem: previous sunsets, MJD *)
  all_sky : AllSky;                           (* ra_all_sky, dec_all_sky, alt_limit *)
  sdt_downtimes : list (Z * Z);               (* (first night, length) *)
  usdt_downtimes : list (Z * Z);
  get_cloud : Q -> Q;                         (* cloud_model.get_cloud *)
  sun_alt : Q -> Q;                           (* ephem: sun.alt at an mjd *)
  sky_info : list (Q * Q);                    (* sky.info: (mjds, sunAlts) rows *)
  approx_RaDec2AltAz : Q -> Q -> Q -> Q * Q;  (* ra dec mjd, site fixed *)
  slew_interp : Q -> Q -> Q -> Q -> Q;
  raDec2Hpid : Q -> Q -> nat;
  returnMags : Q -> nat -> string -> option Q;
  returnAirmass : Q -> nat -> Q;
  get_seeing_singlefilter : Q -> string -> (nat -> Q) ->
                            (nat -> Q) * (nat -> Q) * (nat -> Q);
  returnSunMoon_sunAlt : Q -> Q;
  returnSunMoon_moonAlt : Q -> Q;
  m5_flat_sed : string -> Q -> Q -> Q -> Q -> Q
}.

(** The keys of the status dict that [attempt_observe] reads, with the
    bookkeeping keys and the slew map next to them.  (The keys lmst,
    skybrightness, the twilight instants and the remaining moon fields are
    written by [return_status] and read nowhere in this class.) *)
Record Status := {
  st_mjd : Q;
  st_night : nat;
  st_slewtimes : slewtimes;
  st_airmass : nat -> Q;
  st_clouds : Q;
  st_FWHMeff : list (string * (nat -> Q));          (* 'FWHMeff_%s' *)
  st_FWHM_geometric : list (string * (nat -> Q));   (* 'FWHM_geometric_%s' *)
  st_filter : option string;
  st_RA : option Q;
  st_dec : option Q;
  st_sunAlt : Q;
  st_moonAlt : Q
}.

(** The attributes the methods assign.  [night_cache] stands for the pair
    [sky.info['night']], [self.good_nights], which [check_mjd] creates
    together the first time it gets past the cloud test. *)
Record State := {
  mjd : Q;
  night : nat;
  ra : option Q;
  dec : option Q;
  filtername : option string;
  status : option Status;
  night_cache : option (list nat * list bool)
}.

(** The fields of the request that [attempt_observe] reads; the others are
    carried over to the record untouched. *)
Record Request := {
  req_RA : Q;
  req_dec : Q;
  req_filter : string;
  req_exptime : Q;
  req_nexp : Z
}.

(** The record handed back: the copied request and the fields
    [attempt_observe] fills in. *)
Record Observation := {
  ob_request : Request;
  ob_mjd : Q;
  ob_night : nat;
  ob_slewtime : Q;
  ob_skybrightness : Q;
  ob_FWHMeff : Q;
  ob_FWHM_geometric : Q;
  ob_airmass : Q;
  ob_fivesigmadepth : Q;
  ob_alt : Q;
  ob_az : Q;
  ob_clouds : Q;
  ob_sunAlt : Q;
  ob_moonAlt : Q
}.

Inductive exn := TypeError | KeyError | ValueError.

Inductive outcome (A : Type) :=
| Returned (s : State) (a : A)
| Raised (s : State) (e : exn).
Arguments Returned {A} s a.
Arguments Raised {A} s e.

Definition state_of {A} (o : outcome A) : State :=
  match o with Returned s _ => s | Raised s _ => s end.

(** Attribute assignments. *)
Definition with_clock (s : State) (m : Q) (n : nat) : State :=
  {| mjd := m; night := n; ra := ra s; dec := dec s;
     filtername := filtername s; status := status s;
     night_cache := night_cache s |}.

Definition with_pointing (s : State) (r d : option Q) : State :=
  {| mjd := mjd s; night := night s; ra := r; dec := d;
     filtername := filtername s; status := status s;
     night_cache := night_cache s |}.

Definition with_filtername (s : State) (f : option string) : State :=
  {| mjd := mjd s; night := night s; ra := ra s; dec := dec s;
     filtername := f; status := status s;
     night_cache := night_cache s |}.

Definition with_status (s : State) (t : option Status) : State :=
  {| mjd := mjd s; night := night s; ra := ra s; dec := dec s;
     filtername := filtername s; status := t;
     night_cache := night_cache s |}.

Definition with_night_cache (s : State) (k : option (list nat * list bool)) : State :=
  {| mjd := mjd s; night := night s; ra := ra s; dec := dec s;
     filtername := filtername s; status := status s;
     night_cache := k |}.

Section Observatory.

Variable c : Config.
Variable w : World.

(** [self.setting_sun_mjds], as [generate_sunsets] leaves it; [__init__]
    calls it with [self.mjd = mjd_start]. *)
Definition setting_sun_mjds : list Q := generate_sunsets (setting w) (mjd_start c).

(** [self.down_nights], lines 163-180. *)
Definition down_nights : list Z :=
  sort (flat_map (fun d => range (fst d) (snd d)) (sdt_downtimes w)
        ++ flat_map (fun d => range (fst d) (snd d)) (usdt_downtimes w)).

(** [mjd2night]: [np.searchsorted(self.setting_sun_mjds, mjd)]. *)
Definition mjd2night (m : Q) : nat := searchsorted setting_sun_mjds m.

(** [set_mjd] *)
Definition set_mjd (s : State) (m : Q) : State := with_clock s m (mjd2night m).

(** The object as [__init__] leaves it: parked, no status. *)
Definition init_state : State :=
  {| mjd := mjd_start c; night := mjd2night (mjd_start c);
     ra := None; dec := None; filtername := None; status := None;
     night_cache := None |}.

Definition filters : list string := ["u"; "g"; "r"; "i"; "z"; "y"]%string.

(** dict lookup by key; [None] is the KeyError. *)
Fixpoint lookup {A} (k : string) (d : list (string * A)) : option A :=
  match d with
  | [] => None
  | (k', v) :: d' => if String.eqb k k' then Some v else lookup k d'
  end.

(** [delta_t = (self.mjd-self.mjd_start)*24.*3600.] *)
Definition delta_t (s : State) : Q := (mjd s - mjd_start c) * 24 * 3600.

(** [slew_time(alt, az, mintime=2.)] *)
Definition mintime : Q := 2.

(** [slew_time(alt, az)] called with arrays: the float [mintime], or the
    interpolator applied along the arrays. *)
Definition slew_time_arrays (s : State) (alt az : list Q) : map_error + (Q + list Q) :=
  match ra s, dec s with
  | Some r, Some d =>
      let '(current_alt, current_az) := approx_RaDec2AltAz w r d (mjd s) in
      match np_max alt, np_max az with
      | Some max_alt, Some max_az =>
          if Qeq_bool current_alt max_alt && Qeq_bool current_az max_az
          then inr (inl mintime)
          else inr (inr (map (fun p => slew_interp w current_alt current_az
                                                   (fst p) (snd p))
                             (combine alt az)))
      | _, _ => inl MapValueError
      end
  | _, _ => inl MapTypeError
  end.

(** [slewtime_map] *)
Definition slewtime_map (sky : AllSky) (s : State) : map_error + slewtimes :=
  match ra s with
  | None => inr (Scalar 0)
  | Some _ =>
      let altaz := map (fun p => approx_RaDec2AltAz w (fst p) (snd p) (mjd s))
                       (pixels sky) in
      let good := map (fun a => Qle_bool (alt_limit sky) (fst a)) altaz in
      let seen := filter (fun a => Qle_bool (alt_limit sky) (fst a)) altaz in
      match slew_time_arrays s (map fst seen) (map snd seen) with
      | inl e => inl e
      | inr (inl t) => inr (Map (map (fun g : bool => if g then t else UNSEEN) good))
      | inr (inr times) => inr (Map (scatter good times))
      end
  end.

Definition exn_of (e : map_error) : exn :=
  match e with MapTypeError => TypeError | MapValueError => ValueError end.

(** The dict [return_status] builds, given the slew map. *)
Definition build_status (s : State) (slew : slewtimes) : Status :=
  let airmass := returnAirmass w (mjd s) in
  let seeing f := get_seeing_singlefilter w (delta_t s) f airmass in
  {| st_mjd := mjd s;
     st_night := night s;
     st_slewtimes := slew;
     st_airmass := airmass;
     st_clouds := get_cloud w (delta_t s);
     st_FWHMeff := map (fun f => (f, snd (seeing f))) filters;
     st_FWHM_geometric := map (fun f => (f, snd (fst (seeing f)))) filters;
     st_filter := filtername s;
     st_RA := ra s;
     st_dec := dec s;
     st_sunAlt := returnSunMoon_sunAlt w (mjd s);
     st_moonAlt := returnSunMoon_moonAlt w (mjd s) |}.

(** [return_status]: build the dict, store it in [self.status], return it.
    [slewtime_map] runs before anything is stored, so when it raises the
    object is as it was. *)
Definition return_status (s : State) : outcome Status :=
  match slewtime_map (all_sky w) s with
  | inl e => Raised s (exn_of e)
  | inr slew =>
      let result := build_status s slew in
      Returned (with_status s (Some result)) result
  end.

(** [x in self.down_nights] *)
Definition in_down_nights (n : nat) : bool :=
  existsb (Z.eqb (Z.of_nat n)) down_nights.

(** [self.mjd2night(self.sky.info['mjds'])] and
    [np.in1d(self.sky.info['night'], self.down_nights, invert=True)] *)
Definition sky_nights : list nat := map (fun r => mjd2night (fst r)) (sky_info w).
Definition compute_good_nights (nights : list nat) : list bool :=
  map (fun n => negb (in_down_nights n)) nights.

(** [np.where((mjds > mjd) & (sunAlts <= sun_limit) & good_nights)[0]]
    followed by [mjds[good]]: the qualifying instants, in table order. *)
Definition good_mjds (good_nights : list bool) (m : Q) : list Q :=
  map (fun r => fst (fst r))
      (filter (fun r => Qlt_bool m (fst (fst r))
                        && Qle_bool (snd (fst r)) (sun_limit c)
                        && snd r)
              (combine (sky_info w) good_nights)).

(** [check_mjd]: the verdict, the next candidate instant, and the object
    afterwards (only [night_cache] can differ). *)
Definition check_mjd (s : State) (m : Q) : (bool * Q) * State :=
  let cloud := get_cloud w (delta_t s) in
  if Qle_bool (cloud_limit c) cloud then ((false, m + cloud_step c), s)
  else
    let s1 := match night_cache s with
              | None => with_night_cache s
                          (Some (sky_nights, compute_good_nights sky_nights))
              | Some _ => s
              end in
    let good_nights := match night_cache s1 with
                       | Some k => snd k
                       | None => []
                       end in
    if Qlt_bool (sun_limit c) (sun_alt w m) || in_down_nights (mjd2night m)
    then
      match good_mjds good_nights m with
      | [] => ((false, m + (1 # 4)), s1)
      | m' :: _ => ((false, m'), s1)
      end
    else ((true, m), s1).

(** [slew_time(alt, az)] called with the target's alt/az. *)
Definition slew_time (s : State) (alt az : Q) : exn + Q :=
  match ra s, dec s with
  | Some r, Some d =>
      let '(current_alt, current_az) := approx_RaDec2AltAz w r d (mjd s) in
      if Qeq_bool current_alt alt && Qeq_bool current_az az
      then inr mintime
      else inr (slew_interp w current_alt current_az alt az)
  | _, _ => inl TypeError
  end.

(** Lines 309-318 of [attempt_observe]: [(ft, st)]. *)
Definition slew_cost (s : State) (req : Request) (alt az : Q) : exn + (Q * Q) :=
  match ra s with
  | Some _ =>
      if negb (match filtername s with
               | Some f => String.eqb f (req_filter req)
               | None => false
               end)
      then inr (f_change_time c, 0)
      else match slew_time s alt az with
           | inr st => inr (0, st)
           | inl e => inl e
           end
  | None => inr (0, 0)
  end.

(** [total_time], in days. *)
Definition total_time (ft st : Q) (req : Request) : Q :=
  let rt := (inject_Z (req_nexp req) - 1) * readtime c in
  let shutter := shutter_time c * inject_Z (req_nexp req) in
  (ft + st + req_exptime req + rt + shutter) * sec2days.

(** Lines 340-342: [if update_status: status = self.return_status()]. *)
Definition refresh_status (update_status : bool) (s : State) : outcome unit :=
  if update_status then
    match return_status s with
    | Returned s' _ => Returned s' tt
    | Raised s' e => Raised s' e
    end
  else Returned s tt.

(** The branch taken when [check_mjd] says yes.  The request is a one-row
    record array, as the unit test builds it: [observation['filter'][0]] is
    the filter name of that row.  (For a request whose filter field is a
    plain string the same expression is its first character, which for the
    one-letter names of [filters] is again the name.) *)
Definition commit (s : State) (req : Request) (ft st total alt az : Q)
  : outcome (option Observation) :=
  let update_status := match ra s with None => true | Some _ => false end in
  let start := mjd s + (ft + st) * sec2days in
  let s1 := set_mjd s start in
  let s2 := with_pointing s1 (Some (req_RA req)) (Some (req_dec req)) in
  match refresh_status update_status s2 with
  | Raised s3 e => Raised s3 e
  | Returned s3 _ =>
      let f := req_filter req in
      let s4 := with_filtername s3 (Some f) in
      let hpid := raDec2Hpid w (req_RA req) (req_dec req) in
      match returnMags w start hpid f with
      | None => Raised s4 KeyError
      | Some sky =>
          match status s4 with
          | None => Raised s4 TypeError
          | Some t =>
              match lookup f (st_FWHMeff t), lookup f (st_FWHM_geometric t) with
              | Some fwhm_eff, Some fwhm_geom =>
                  let o :=
                    {| ob_request := req;
                       ob_mjd := start;
                       ob_night := night s4;
                       ob_slewtime := ft + st;
                       ob_skybrightness := sky;
                       ob_FWHMeff := fwhm_eff hpid;
                       ob_FWHM_geometric := fwhm_geom hpid;
                       ob_airmass := st_airmass t hpid;
                       ob_fivesigmadepth :=
                         m5_flat_sed w f sky (fwhm_eff hpid) (req_exptime req)
                                     (st_airmass t hpid);
                       ob_alt := alt;
                       ob_az := az;
                       ob_clouds := st_clouds t;
                       ob_sunAlt := st_sunAlt t;
                       ob_moonAlt := st_moonAlt t |} in
                  Returned
                    (set_mjd s4 (mjd s4 + total - (ft + st) * sec2days))
                    (Some o)
              | _, _ => Raised s4 KeyError
              end
          end
      end
  end.

(** The branch taken when [check_mjd] says no. *)
Definition reject (s : State) (jump_mjd : Q) : outcome (option Observation) :=
  let s1 := with_clock s jump_mjd (mjd2night jump_mjd) in
  let s2 := with_pointing s1 None None in
  let s3 := with_status s2 None in
  Returned (with_filtername s3 None) None.

(** [attempt_observe] *)
Definition attempt_observe (s : State) (req : Request)
  : outcome (option Observation) :=
  let '(alt, az) := approx_RaDec2AltAz w (req_RA req) (req_dec req) (mjd s) in
  match slew_cost s req alt az with
  | inl e => Raised s e
  | inr (ft, st) =>
      let total := total_time ft st req in
      let '((check_result, jump_mjd), s') := check_mjd s (mjd s + total) in
      if check_result
      then commit s' req ft st total alt az
      else reject s' jump_mjd
  end.

(** The target's alt/az (lines 306-308) and the cost [(ft, st)] of lines
    309-318 at that alt/az; [inl] when costing raises. *)
Definition target_altaz (s : State) (req : Request) : Q * Q :=
  approx_RaDec2AltAz w (req_RA req) (req_dec req) (mjd s).

Definition visit_cost (s : State) (req : Request) : exn + (Q * Q) :=
  slew_cost s req (fst (target_altaz s req)) (snd (target_altaz s req)).

(** The states the object goes through: [__init__], then any sequence of
    [set_mjd], [return_status], [check_mjd] and [attempt_observe] calls, an
    exception leaving the object as it was when raised. *)
Inductive reachable : State -> Prop :=
| reach_init : reachable init_state
| reach_set_mjd s m : reachable s -> reachable (set_mjd s m)
| reach_return_status s : reachable s -> reachable (state_of (return_status s))
| reach_check_mjd s m : reachable s -> reachable (snd (check_mjd s m))
| reach_attempt_observe s req :
    reachable s -> reachable (state_of (attempt_observe s req)).

(** At the instant [m] some pixel of the sky is at or above [alt_limit]. *)
Definition some_pixel_up (m : Q) : Prop :=
  exists p, In p (pixels (all_sky w)) /\
            alt_limit (all_sky w) <= fst (approx_RaDec2AltAz w (fst p) (snd p) m).

(** The sky never leaves the telescope without a pixel to slew to. *)
Definition sky_in_view : Prop := forall m, some_pixel_up m.

(** An instant of the sky table that is later than [m], dark, and in a night
    that is not closed. *)
Definition qualifies (m x : Q) : Prop :=
  exists sunAlt, In (x, sunAlt) (sky_info w) /\
                 m < x /\ sunAlt <= sun_limit c /\
                 in_down_nights (mjd2night x) = false.

(** [qualifies], row by row, as [check_mjd] tests it. *)
Definition qualifies_bool (m : Q) (r : Q * Q) : bool :=
  Qlt_bool m (fst r) && Qle_bool (snd r) (sun_limit c)
  && negb (in_down_nights (mjd2night (fst r))).

(** The stored night number is the night of the stored clock. *)
Definition night_consistent (s : State) : Prop := night s = mjd2night (mjd s).

(** A telescope that points somewhere has a declination. *)
Definition pointing_paired (s : State) : Prop := ra s <> None -> dec s <> None.

(** A telescope that points somewhere has a declination and a status dict. *)
Definition pointing_backed (s : State) : Prop :=
  ra s <> None -> dec s <> None /\ status s <> None.

(** The night cache, once created, holds the nights of the sky table. *)
Definition cache_faithful (s : State) : Prop :=
  night_cache s = None \/
  night_cache s = Some (sky_nights, compute_good_nights (sky_nights)).

End Observatory.

End Model.
Import Model.

(** ** A concrete observatory, for evaluating the model *)

Module Demo.

Definition config : Config :=
  {| mjd_start := 119707 # 2;          (* 59853.5 *)
     readtime := 2;
     f_change_time := 140;
     shutter_time := 1;
     sun_limit := - (2269 # 10000);    (* radians(-13.) to four places *)
     cloud_limit := 699 # 1000;
     cloud_step_arg := 15 |}.

(** The previous sunset at eight sample instants, with some jitter in the
    repeats; a quarter-day sky table whose second and last rows are in
    daylight. *)
Definition sunsets : list Q :=
  [ 5985295 # 100; 5985295 # 100;
    5985395 # 100; 59853950001 # 1000000; 5985395 # 100;
    5985495 # 100; 59854949999 # 1000000;
    5985595 # 100 ].

Definition timeline : list (Q * Q) :=
  [ (119707 # 2, - (1 # 2));
    (239415 # 4, 3 # 10);
    (59854, - (3 # 5));
    (239417 # 4, - (2 # 5));
    (119709 # 2, 1 # 5) ].

Definition seeing (_ : Q) (_ : string) (_ : nat -> Q)
  : (nat -> Q) * (nat -> Q) * (nat -> Q) :=
  (fun _ => 6 # 10, fun _ => 7 # 10, fun _ => 8 # 10).

Definition mags (_ : Q) (_ : nat) (f : string) : option Q :=
  if existsb (String.eqb f) filters then Some 21 else None.

(** A sky with three pixels, the middle one under the altitude limit of the
    coordinate transform below, and the same pixels with a limit none of
    them reaches. *)
Definition sky : AllSky :=
  {| pixels := [(0, 1 # 2); (1, - (9 # 10)); (2, 3 # 10)];
     alt_limit := 349 # 1000 |}.

Definition low_sky : AllSky :=
  {| pixels := [(0, 1 # 2); (1, - (9 # 10)); (2, 3 # 10)];
     alt_limit := 2 |}.

(** A world with the given sky, cloud series, solar altitude and closed
    nights. *)
Definition world_under (above : AllSky) (cloud sun : Q -> Q)
           (closed : list (Z * Z)) : World :=
  {| setting := sunsets;
     all_sky := above;
     sdt_downtimes := closed;
     usdt_downtimes := [];
     get_cloud := cloud;
     sun_alt := sun;
     sky_info := timeline;
     approx_RaDec2AltAz := fun r d _ => (d + 1, r);
     slew_interp := fun _ _ _ _ => 7;
     raDec2Hpid := fun _ _ => 0%nat;
     returnMags := mags;
     returnAirmass := fun _ _ => 11 # 10;
     get_seeing_singlefilter := seeing;
     returnSunMoon_sunAlt := fun _ => - (1 # 2);
     returnSunMoon_moonAlt := fun _ => - (1 # 5);
     m5_flat_sed := fun _ _ _ _ _ => 24 |}.

Definition world (cloud sun : Q -> Q) (closed : list (Z * Z)) : World :=
  world_under sky cloud sun closed.

Definition clear : Q -> Q := fun _ => 0.
Definition overcast : Q -> Q := fun _ => 1.
Definition dark : Q -> Q := fun _ => - (1 # 2).
Definition daylight : Q -> Q := fun _ => 1 # 2.

Definition clear_dark : World := world clear dark [].
Definition overcast_dark : World := world overcast dark [].
Definition overcast_day : World := world overcast daylight [].
Definition clear_day : World := world clear daylight [].
Definition clear_dark_closed : World := world clear dark [(0%Z, 1%Z)].
Definition clear_dark_low : World := world_under low_sky clear dark [].

(** The request of the unit test: RA 0, Dec -30 deg, filter r, 30 s, 2 exposures. *)
Definition request : Request :=
  {| req_RA := 0; req_dec := - (5236 # 10000); req_filter := "r";
     req_exptime := 30; req_nexp := 2 |}.

(** The same target with no exposure at all. *)
Definition request_nexp0 : Request :=
  {| req_RA := 0; req_dec := - (5236 # 10000); req_filter := "r";
     req_exptime := 0; req_nexp := 0 |}.

(** A request with the filter left empty. *)
Definition request_nofilter : Request :=
  {| req_RA := 0; req_dec := - (5236 # 10000); req_filter := "";
     req_exptime := 30; req_nexp := 2 |}.

(** The observatory as constructed, and after one visit under a clear dark
    sky. *)
Definition parked (w : World) : State := init_state config w.
Definition tracking : State :=
  state_of (attempt_observe config clear_dark (parked clear_dark) request).

End Demo.

(** ** The helpers at the top of the file *)

Module Helpers.

(** [inrange(inval, minimum=-1., maximum=1.)] on an array: first the entries
    below [minimum] are set to it, then the entries above [maximum] are set
    to [maximum]. *)
Definition inrange (inval : list Q) (minimum maximum : Q) : list Q :=
  let inval1 := map (fun x => if Qlt_bool x minimum then minimum else x) inval in
  map (fun x => if Qlt_bool maximum x then maximum else x) inval1.

(** A [datetime] is its number of microseconds since 0001-01-01 00:00; a
    [timedelta] is a number of microseconds. *)
Definition datetime := Z.

Definition total_seconds (td : Z) : Q := td # 1000000.

(** [datetime(1970, 1, 1)]: 719162 days after 0001-01-01. *)
Definition datetime_1970_1_1 : datetime := (719162 * 86400 * 1000000)%Z.

Record dummy_time_handler := {
  unix_start : datetime;     (* self._unix_start *)
  initial_dt : datetime      (* self.initial_dt *)
}.

(** [dummy_time_handler.__init__]; [to_datetime] is astropy's
    [Time(mjd, format='mjd').datetime]. *)
Definition new_time_handler (to_datetime : Q -> datetime) (mjd_init : Q)
  : dummy_time_handler :=
  {| unix_start := datetime_1970_1_1; initial_dt := to_datetime mjd_init |}.

(** [time_since_given_datetime(datetime1, datetime2=None, reverse=False)] *)
Definition time_since_given_datetime (h : dummy_time_handler)
           (datetime1 : datetime) (datetime2 : option datetime) (reverse : bool) : Q :=
  let datetime2 := match datetime2 with
                   | None => unix_start h
                   | Some d => d
                   end in
  if reverse
  then total_seconds (datetime1 - datetime2)
  else total_seconds (datetime2 - datetime1).

End Helpers.
Import Helpers.

(** ** More of the observatory *)

Module More.

(** [self.setting_sun_nights = self.mjd2night(self.setting_sun_mjds)] *)
Definition setting_sun_nights (c : Config) (w : World) : list nat :=
  map (mjd2night c w) (setting_sun_mjds c w).

(** The downtimes [__init__] reads, scheduled then unscheduled. *)
Definition downtimes (w : World) : list (Z * Z) :=
  sdt_downtimes w ++ usdt_downtimes w.

(** A status dict with the seeing entries [return_status] writes: one per
    filter of [filters], in that order. *)
Definition status_keyed (t : Status) : Prop :=
  map fst (st_FWHMeff t) = filters /\ map fst (st_FWHM_geometric t) = filters.

(** The sky of the concrete observatory. *)
Definition demo_sky : AllSky := Demo.sky.

End More.
Import More.

(** * Properties *)

(** ** Order on the rationals, as booleans *)

Lemma Qlt_bool_iff x y : Qlt_bool x y = true <-> x < y.
Proof.
  unfold Qlt_bool. rewrite negb_true_iff.
  split; intro H.
  - apply Qnot_le_lt. intro L. apply Qle_bool_iff in L. congruence.
  - destruct (Qle_bool y x) eqn:E; [|reflexivity].
    apply Qle_bool_iff in E. exfalso. now apply (Qlt_not_le x y).
Qed.

Lemma Qlt_bool_false_iff x y : Qlt_bool x y = false <-> y <= x.
Proof.
  unfold Qlt_bool. rewrite negb_false_iff. apply Qle_bool_iff.
Qed.

Lemma Qle_bool_false_iff x y : Qle_bool x y = false <-> y < x.
Proof.
  rewrite <- Qlt_bool_iff. unfold Qlt_bool. now rewrite negb_true_iff.
Qed.

Lemma sec2days_pos : 0 < sec2days.
Proof. reflexivity. Qed.

(** ** searchsorted on an ascending table *)

Lemma bisect_step fuel a v lo hi :
  bisect (S fuel) a v lo hi =
  if (lo <? hi)%nat then
    if Qlt_bool (nth (lo + (hi - lo) / 2) a 0) v
    then bisect fuel a v (S (lo + (hi - lo) / 2)) hi
    else bisect fuel a v lo (lo + (hi - lo) / 2)
  else lo.
Proof. reflexivity. Qed.

Section Bisection.

Variable a : list Q.
Variable v : Q.
Hypothesis a_ascending : ascending a.

Lemma bisect_bounds fuel : forall lo hi,
  (lo <= hi <= length a)%nat -> (hi - lo <= fuel)%nat ->
  (forall i, (i < lo)%nat -> nth i a 0 < v) ->
  (forall i, (hi <= i < length a)%nat -> v <= nth i a 0) ->
  split_at a v (bisect fuel a v lo hi).
Proof.
  induction fuel as [|fuel IH]; intros lo hi Hb Hf Hlo Hhi.
  - simpl. assert (lo = hi) by lia. subst hi. now split.
  - rewrite bisect_step. destruct (Nat.ltb_spec lo hi) as [Hlt|Hge].
    + set (mid := (lo + (hi - lo) / 2)%nat).
      assert (Hmid : (lo <= mid < hi)%nat).
      { unfold mid.
        assert ((hi - lo) / 2 < hi - lo)%nat by (apply Nat.div_lt; lia). lia. }
      destruct (Qlt_bool (nth mid a 0) v) eqn:E.
      * apply Qlt_bool_iff in E.
        apply IH; try lia; [|assumption].
        intros i Hi. apply Qle_lt_trans with (nth mid a 0); [|assumption].
        apply a_ascending. lia.
      * apply Qlt_bool_false_iff in E.
        apply IH; try lia; [assumption|].
        intros i Hi. apply Qle_trans with (nth mid a 0); [assumption|].
        apply a_ascending. lia.
    + assert (lo = hi) by lia. subst hi. now split.
Qed.

Lemma searchsorted_split : split_at a v (searchsorted a v).
Proof.
  unfold searchsorted. apply bisect_bounds; lia.
Qed.

End Bisection.

Lemma bisect_range fuel a v : forall lo hi,
  (lo <= hi)%nat -> (lo <= bisect fuel a v lo hi <= hi)%nat.
Proof.
  induction fuel as [|fuel IH]; intros lo hi Hb; [simpl; lia|].
  rewrite bisect_step.
  destruct (Nat.ltb_spec lo hi) as [Hlt|Hge]; [|lia].
  assert ((hi - lo) / 2 < hi - lo)%nat by (apply Nat.div_lt; lia).
  destruct (Qlt_bool _ v).
  - specialize (IH (S (lo + (hi - lo) / 2)) hi). lia.
  - specialize (IH lo (lo + (hi - lo) / 2)%nat). lia.
Qed.

(** A split point of a table is the number of its entries below [v]. *)
Lemma split_at_count a v : forall r,
  (r <= length a)%nat -> split_at a v r -> count_below a v = r.
Proof.
  unfold count_below.
  induction a as [|x a' IH]; intros r Hr [Hlo Hhi]; simpl in *.
  - lia.
  - destruct r as [|r'].
    + assert (E : Qlt_bool x v = false).
      { apply Qlt_bool_false_iff. apply (Hhi 0%nat). lia. }
      rewrite E. apply (IH 0%nat); [lia|]. split.
      * intros i Hi. lia.
      * intros i Hi. apply (Hhi (S i)). lia.
    + assert (E : Qlt_bool x v = true).
      { apply Qlt_bool_iff. apply (Hlo 0%nat). lia. }
      rewrite E. simpl. f_equal. apply IH; [lia|]. split.
      * intros i Hi. apply (Hlo (S i)). lia.
      * intros i Hi. apply (Hhi (S i)). lia.
Qed.

Lemma searchsorted_count a v :
  ascending a -> searchsorted a v = count_below a v.
Proof.
  intro Ha. symmetry. apply split_at_count.
  - unfold searchsorted. pose proof (bisect_range (length a) a v 0 (length a)). lia.
  - now apply searchsorted_split.
Qed.

Lemma count_below_mono a v v' : v <= v' -> (count_below a v <= count_below a v')%nat.
Proof.
  intro Hv. unfold count_below.
  induction a as [|x a' IH]; simpl; [lia|].
  destruct (Qlt_bool x v) eqn:E.
  - apply Qlt_bool_iff in E.
    assert (E' : Qlt_bool x v' = true).
    { apply Qlt_bool_iff. now apply Qlt_le_trans with v. }
    rewrite E'. simpl. lia.
  - destruct (Qlt_bool x v'); simpl; lia.
Qed.

Lemma count_below_none a v : (forall b, In b a -> v <= b) -> count_below a v = 0%nat.
Proof.
  intro H. apply split_at_count; [lia|]. split.
  - intros i Hi. lia.
  - intros i Hi. apply H. apply nth_In. lia.
Qed.

Lemma count_below_all a v : (forall b, In b a -> b < v) -> count_below a v = length a.
Proof.
  intro H. apply split_at_count; [lia|]. split.
  - intros i Hi. apply H. now apply nth_In.
  - intros i Hi. lia.
Qed.

Lemma ascending_bool_sound a : ascending_bool a = true -> ascending a.
Proof.
  induction a as [|x t IH]; intros H i j Hij; simpl in Hij; [lia|].
  destruct t as [|y t'].
  - simpl in Hij. assert (i = 0%nat) by lia. assert (j = 0%nat) by lia.
    subst. apply Qle_refl.
  - simpl in H. apply andb_true_iff in H. destruct H as [Hxy Ht].
    apply Qle_bool_iff in Hxy. specialize (IH Ht).
    destruct i as [|i'], j as [|j']; try lia.
    + apply Qle_refl.
    + apply Qle_trans with y; [assumption|].
      apply (IH 0%nat j'). simpl in *. lia.
    + apply (IH i' j'). simpl in *. lia.
Qed.

(** ** The table generate_sunsets builds is ascending *)

Lemma round_half_even_range q :
  round_half_even q = Qfloor q \/ round_half_even q = (Qfloor q + 1)%Z.
Proof.
  unfold round_half_even.
  destruct (Qlt_bool _ _); [now left|].
  destruct (Qlt_bool _ _); [now right|].
  destruct (Z.even _); [now left|now right].
Qed.

Lemma round_half_even_mono q q' :
  q <= q' -> (round_half_even q <= round_half_even q')%Z.
Proof.
  intro Hq. pose proof (Qfloor_resp_le q q' Hq) as Hf.
  destruct (Z.eq_dec (Qfloor q) (Qfloor q')) as [E|N].
  - unfold round_half_even. rewrite <- E.
    set (f := Qfloor q).
    destruct (Qlt_bool (q - inject_Z f) (1 # 2)) eqn:E1.
    + destruct (Qlt_bool (q' - inject_Z f) (1 # 2)); [lia|].
      destruct (Qlt_bool (1 # 2) (q' - inject_Z f)); [lia|].
      destruct (Z.even f); lia.
    + apply Qlt_bool_false_iff in E1.
      assert (E1' : Qlt_bool (q' - inject_Z f) (1 # 2) = false)
        by (apply Qlt_bool_false_iff; lra).
      rewrite E1'.
      destruct (Qlt_bool (1 # 2) (q - inject_Z f)) eqn:E2.
      * apply Qlt_bool_iff in E2.
        assert (E2' : Qlt_bool (1 # 2) (q' - inject_Z f) = true)
          by (apply Qlt_bool_iff; lra).
        rewrite E2'. lia.
      * destruct (Qlt_bool (1 # 2) (q' - inject_Z f)); [destruct (Z.even f); lia|].
        destruct (Z.even f); lia.
  - destruct (round_half_even_range q) as [-> | ->],
             (round_half_even_range q') as [-> | ->]; lia.
Qed.

Lemma insert_first_In k x l r :
  In r (insert_first k x l) -> r = (k, x) \/ In r l.
Proof.
  induction l as [|[k' x'] t IH]; simpl.
  - intros [<-|[]]. now left.
  - destruct (k <? k')%Z; [simpl; intuition|].
    destruct (k =? k')%Z; [simpl; intuition|].
    simpl. intros [<-|H]; [now right; left|].
    destruct (IH H); [now left|now right; right].
Qed.

Lemma insert_first_sorted k x l :
  StronglySorted (fun a b => (fst a < fst b)%Z) l ->
  StronglySorted (fun a b => (fst a < fst b)%Z) (insert_first k x l).
Proof.
  induction 1 as [|[k' x'] t Hs IH Hall]; simpl.
  - constructor; constructor.
  - destruct (Z.ltb_spec k k') as [Hlt|Hge].
    + constructor; [now constructor|].
      constructor; [exact Hlt|].
      rewrite Forall_forall in *. intros r Hr. specialize (Hall r Hr).
      simpl in *. lia.
    + destruct (Z.eqb_spec k k') as [He|Hne]; [now constructor|].
      constructor; [exact IH|].
      rewrite Forall_forall in *. intros r Hr.
      destruct (insert_first_In _ _ _ _ Hr) as [->|Hin]; [simpl; lia|now apply Hall].
Qed.

Lemma unique_first_invariant (P : Z * Q -> Prop) rows : forall acc,
  StronglySorted (fun a b => (fst a < fst b)%Z) acc ->
  Forall P acc -> Forall P rows ->
  StronglySorted (fun a b => (fst a < fst b)%Z)
    (fold_left (fun acc r => insert_first (fst r) (snd r) acc) rows acc) /\
  Forall P (fold_left (fun acc r => insert_first (fst r) (snd r) acc) rows acc).
Proof.
  induction rows as [|[k x] rows IH]; intros acc Hs Ha Hr; simpl; [now split|].
  inversion Hr as [|? ? Hkx Hrest]; subst.
  apply IH; [now apply insert_first_sorted| |exact Hrest].
  rewrite Forall_forall in *. intros r Hin.
  destruct (insert_first_In _ _ _ _ Hin) as [->|Hin']; [exact Hkx|now apply Ha].
Qed.

Lemma strictly_ascending_cons x a :
  (forall y, In y a -> x < y) -> strictly_ascending a -> strictly_ascending (x :: a).
Proof.
  intros Hmin Ha i j Hij. simpl in Hij.
  destruct i as [|i'], j as [|j']; try lia; simpl.
  - apply Hmin. apply nth_In. lia.
  - apply (Ha i' j'). lia.
Qed.

Lemma strictly_ascending_skipn n a :
  strictly_ascending a -> strictly_ascending (skipn n a).
Proof.
  intros Ha i j Hij. rewrite length_skipn in Hij.
  rewrite !nth_skipn. apply Ha. lia.
Qed.

Lemma strictly_ascending_le a : strictly_ascending a -> ascending a.
Proof.
  intros Ha i j Hij. destruct (Nat.eq_dec i j) as [->|Hne].
  - apply Qle_refl.
  - apply Qlt_le_weak. apply Ha. lia.
Qed.

(** Rows in increasing order of their keys, each key the rounding of its
    value, have their values in increasing order. *)
Lemma keyed_sorted_ascending (l : list (Z * Q)) :
  StronglySorted (fun a b => (fst a < fst b)%Z) l ->
  Forall (fun r => fst r = round_half_even (snd r * 100)) l ->
  strictly_ascending (map snd l).
Proof.
  induction 1 as [|[k x] t Hs IH Hall]; intro Hkey; simpl.
  - intros i j Hij. simpl in Hij. lia.
  - inversion Hkey as [|? ? Hk Hkt]; subst. simpl in Hk.
    apply strictly_ascending_cons; [|now apply IH].
    intros y Hy. apply in_map_iff in Hy. destruct Hy as ([k' x'] & <- & Hin).
    rewrite Forall_forall in Hall, Hkt.
    specialize (Hall _ Hin). specialize (Hkt _ Hin). simpl in *.
    destruct (Qlt_le_dec x x') as [Hlt|Hle]; [exact Hlt|].
    assert (Hm : (round_half_even (x' * 100) <= round_half_even (x * 100))%Z)
      by (apply round_half_even_mono; lra).
    lia.
Qed.

Lemma combine_map_keyed (f : Q -> Z) (l : list Q) :
  Forall (fun r => fst r = f (snd r)) (combine (map f l) l).
Proof.
  induction l as [|x l IH]; simpl; constructor; [reflexivity|exact IH].
Qed.

Lemma generate_sunsets_strictly_ascending setting mjd_start :
  strictly_ascending (generate_sunsets setting mjd_start).
Proof.
  unfold generate_sunsets, unique_first. apply strictly_ascending_skipn.
  destruct (unique_first_invariant
              (fun r => fst r = round_half_even (snd r * 100))
              (combine (map (fun x => round_half_even (x * 100)) setting) setting) [])
    as [Hs Hk].
  - constructor.
  - constructor.
  - apply (combine_map_keyed (fun x => round_half_even (x * 100))).
  - now apply keyed_sorted_ascending.
Qed.

Lemma generate_sunsets_ascending setting mjd_start :
  ascending (generate_sunsets setting mjd_start).
Proof. apply strictly_ascending_le, generate_sunsets_strictly_ascending. Qed.

(** ** Night numbers *)

(** Around an entry of a strictly ascending table there is room for a
    step that reaches neither neighbour. *)
Lemma room_around_entry b k :
  strictly_ascending b -> (k < length b)%nat ->
  exists delta, 0 < delta /\
    forall eps, eps < delta ->
      (forall j, S j = k -> nth j b 0 < nth k b 0 - eps) /\
      ((S k < length b)%nat -> nth k b 0 + eps <= nth (S k) b 0).
Proof.
  intros Hb Hk.
  assert (Hp : exists gp, 0 < gp /\
                 forall j, S j = k -> gp <= nth k b 0 - nth j b 0).
  { destruct k as [|k'].
    - exists 1. split; [reflexivity|]. intros j Hj. discriminate.
    - exists (nth (S k') b 0 - nth k' b 0). split.
      + assert (nth k' b 0 < nth (S k') b 0) by (apply Hb; lia). lra.
      + intros j Hj. injection Hj as ->. apply Qle_refl. }
  assert (Hn : exists gn, 0 < gn /\
                 ((S k < length b)%nat -> gn <= nth (S k) b 0 - nth k b 0)).
  { destruct (Nat.lt_ge_cases (S k) (length b)) as [Hlt|Hge].
    - exists (nth (S k) b 0 - nth k b 0). split.
      + assert (nth k b 0 < nth (S k) b 0) by (apply Hb; lia). lra.
      + intros _. apply Qle_refl.
    - exists 1. split; [reflexivity|]. intro. lia. }
  destruct Hp as (gp & Hgp & Hprev), Hn as (gn & Hgn & Hnext).
  destruct (Qlt_le_dec gp gn) as [Hlt|Hle].
  - exists gp. split; [exact Hgp|]. intros eps He. split.
    + intros j Hj. specialize (Hprev j Hj). lra.
    + intros Hs. specialize (Hnext Hs). lra.
  - exists gn. split; [exact Hgn|]. intros eps He. split.
    + intros j Hj. specialize (Hprev j Hj). lra.
    + intros Hs. specialize (Hnext Hs). lra.
Qed.

(** C6.  The table of sunsets is strictly ascending, and [mjd2night m] is the
    number of stored sunsets strictly before [m]: none when [m] is at or
    before every sunset, all of them when [m] is after every sunset.  It
    never decreases as [m] grows.  Around the sunset of index [k] it is [k]
    just before and [k + 1] just after, for any step [eps] that stays clear
    of the neighbouring sunsets; every positive step below some positive
    bound does. *)
Theorem mjd2night_counts_sunsets (c : Config) (w : World) :
  strictly_ascending (setting_sun_mjds c w) /\
  (forall m, mjd2night c w m = count_below (setting_sun_mjds c w) m) /\
  (forall m, (forall b, In b (setting_sun_mjds c w) -> m <= b) ->
             mjd2night c w m = 0%nat) /\
  (forall m, (forall b, In b (setting_sun_mjds c w) -> b < m) ->
             mjd2night c w m = length (setting_sun_mjds c w)) /\
  (forall m m', m <= m' -> (mjd2night c w m <= mjd2night c w m')%nat) /\
  (forall k eps,
      (k < length (setting_sun_mjds c w))%nat -> 0 < eps ->
      (forall j, S j = k ->
                 nth j (setting_sun_mjds c w) 0 < nth k (setting_sun_mjds c w) 0 - eps) ->
      ((S k < length (setting_sun_mjds c w))%nat ->
       nth k (setting_sun_mjds c w) 0 + eps <= nth (S k) (setting_sun_mjds c w) 0) ->
      mjd2night c w (nth k (setting_sun_mjds c w) 0 - eps) = k /\
      mjd2night c w (nth k (setting_sun_mjds c w) 0 + eps) = S k) /\
  (forall k,
      (k < length (setting_sun_mjds c w))%nat ->
      exists delta, 0 < delta /\
        forall eps, 0 < eps -> eps < delta ->
          mjd2night c w (nth k (setting_sun_mjds c w) 0 - eps) = k /\
          mjd2night c w (nth k (setting_sun_mjds c w) 0 + eps) = S k).
Proof.
  assert (Ha : ascending (setting_sun_mjds c w))
    by apply generate_sunsets_ascending.
  split; [apply generate_sunsets_strictly_ascending|]. unfold mjd2night.
  set (b := setting_sun_mjds c w) in *.
  assert (Hc : forall m, searchsorted b m = count_below b m)
    by (intro m; now apply searchsorted_count).
  split; [exact Hc|].
  split; [intros m H; rewrite Hc; now apply count_below_none|].
  split; [intros m H; rewrite Hc; now apply count_below_all|].
  split; [intros m m' H; rewrite !Hc; now apply count_below_mono|].
  assert (Hnear : forall k eps,
             (k < length b)%nat -> 0 < eps ->
             (forall j, S j = k -> nth j b 0 < nth k b 0 - eps) ->
             ((S k < length b)%nat -> nth k b 0 + eps <= nth (S k) b 0) ->
             searchsorted b (nth k b 0 - eps) = k /\
             searchsorted b (nth k b 0 + eps) = S k).
  2: { split; [exact Hnear|]. intros k Hk.
       destruct (room_around_entry b k) as (delta & Hd & Hroom);
         [apply generate_sunsets_strictly_ascending|exact Hk|].
       exists delta. split; [exact Hd|]. intros eps He Hed.
       destruct (Hroom eps Hed) as [Hprev Hnext]. now apply Hnear. }
  intros k eps Hk Heps Hprev Hnext. split.
  - rewrite Hc. apply split_at_count; [lia|]. split.
    + intros i Hi. destruct k as [|k']; [lia|].
      apply Qle_lt_trans with (nth k' b 0); [apply Ha; lia|].
      now apply Hprev.
    + intros i Hi. apply Qle_trans with (nth k b 0); [lra|].
      apply Ha. lia.
  - rewrite Hc. apply split_at_count; [lia|]. split.
    + intros i Hi. apply Qle_lt_trans with (nth k b 0); [apply Ha; lia|lra].
    + intros i Hi. apply Qle_trans with (nth (S k) b 0); [apply Hnext; lia|].
      apply Ha. lia.
Qed.

Lemma mjd2night_counts_sunsets_witness :
  mjd2night Demo.config Demo.clear_dark ((5985495 # 100) - (1 # 100)) = 1%nat /\
  mjd2night Demo.config Demo.clear_dark ((5985495 # 100) + (1 # 100)) = 2%nat.
Proof.
  destruct (mjd2night_counts_sunsets Demo.config Demo.clear_dark)
    as (_ & _ & _ & _ & _ & H & _).
  apply (H 1%nat (1 # 100)).
  - vm_compute. lia.
  - reflexivity.
  - intros j Hj. assert (j = 0%nat) by lia. subst j. vm_compute. reflexivity.
  - intros _. vm_compute. discriminate.
Defined.

(** ** The shape of an attempt *)

Section Attempt.

Variable c : Config.
Variable w : World.

Lemma attempt_observe_eq s req :
  attempt_observe c w s req =
  match visit_cost c w s req with
  | inl e => Raised s e
  | inr (ft, st) =>
      let total := total_time c ft st req in
      let r := check_mjd c w s (mjd s + total) in
      if fst (fst r)
      then commit c w (snd r) req ft st total
                  (fst (target_altaz w s req)) (snd (target_altaz w s req))
      else reject c w (snd r) (snd (fst r))
  end.
Proof.
  unfold attempt_observe, visit_cost, target_altaz.
  destruct (approx_RaDec2AltAz w (req_RA req) (req_dec req) (mjd s)) as [alt az].
  simpl. destruct (slew_cost c w s req alt az) as [e|[ft st]]; [reflexivity|].
  simpl. destruct (check_mjd c w s (mjd s + total_time c ft st req)) as [[ok j] s'].
  reflexivity.
Qed.

(** [check_mjd] assigns nothing but the night cache. *)
Lemma check_mjd_fields s m :
  let s' := snd (check_mjd c w s m) in
  mjd s' = mjd s /\ night s' = night s /\ ra s' = ra s /\ dec s' = dec s /\
  filtername s' = filtername s /\ status s' = status s.
Proof.
  unfold check_mjd.
  destruct (Qle_bool _ _); [simpl; tauto|].
  destruct (night_cache s) as [k|];
    destruct (_ || _); try destruct (good_mjds _ _ _ _); simpl; tauto.
Qed.

Lemma reject_fields s j :
  exists s', reject c w s j = Returned s' None /\
             mjd s' = j /\ night s' = mjd2night c w j /\
             ra s' = None /\ dec s' = None /\
             filtername s' = None /\ status s' = None /\
             night_cache s' = night_cache s.
Proof.
  unfold reject. eexists. split; [reflexivity|]. simpl. tauto.
Qed.

Lemma np_max_some x l : exists m, np_max (x :: l) = Some m.
Proof. simpl. destruct (np_max l); eexists; reflexivity. Qed.

(** With a pointing and a pixel at or above the limit, [slewtime_map]
    returns an array. *)
Lemma slewtime_map_returns sky s :
  ra s <> None -> dec s <> None ->
  (exists p, In p (pixels sky) /\
             alt_limit sky <= fst (approx_RaDec2AltAz w (fst p) (snd p) (mjd s))) ->
  exists m, slewtime_map w sky s = inr (Map m).
Proof.
  intros Hr Hd (p & Hin & Hp).
  unfold slewtime_map, slew_time_arrays.
  destruct (ra s) as [r|]; [|now elim Hr].
  destruct (dec s) as [d|]; [|now elim Hd].
  set (altaz := map (fun p => approx_RaDec2AltAz w (fst p) (snd p) (mjd s)) (pixels sky)).
  assert (Hs : In (approx_RaDec2AltAz w (fst p) (snd p) (mjd s))
                  (filter (fun a : Q * Q => Qle_bool (alt_limit sky) (fst a)) altaz)).
  { apply filter_In. split.
    - unfold altaz.
      now apply (in_map (fun p => approx_RaDec2AltAz w (fst p) (snd p) (mjd s))).
    - now apply Qle_bool_iff. }
  destruct (filter _ altaz) as [|a seen]; [destruct Hs|].
  destruct (approx_RaDec2AltAz w r d (mjd s)) as [ca cz].
  destruct (np_max_some (fst a) (map fst seen)) as (ma & Ea).
  destruct (np_max_some (snd a) (map snd seen)) as (mz & Ez).
  change (map fst (a :: seen)) with (fst a :: map fst seen).
  change (map snd (a :: seen)) with (snd a :: map snd seen).
  rewrite Ea, Ez.
  destruct (_ && _); eexists; reflexivity.
Qed.

(** With a pointing and every pixel under the limit, [slewtime_map] ends in
    the ValueError of a maximum over nothing. *)
Lemma slewtime_map_no_pixel sky s :
  ra s <> None -> dec s <> None ->
  (forall p, In p (pixels sky) ->
             fst (approx_RaDec2AltAz w (fst p) (snd p) (mjd s)) < alt_limit sky) ->
  slewtime_map w sky s = inl MapValueError.
Proof.
  intros Hr Hd Hlow. unfold slewtime_map.
  destruct (ra s) as [r|] eqn:Er; [|now elim Hr].
  destruct (dec s) as [d|] eqn:Ed; [|now elim Hd].
  assert (Hnone : filter (fun a : Q * Q => Qle_bool (alt_limit sky) (fst a))
                    (map (fun p => approx_RaDec2AltAz w (fst p) (snd p) (mjd s))
                         (pixels sky)) = []).
  { induction (pixels sky) as [|p l IH]; simpl; [reflexivity|].
    assert (Hp : Qle_bool (alt_limit sky)
                   (fst (approx_RaDec2AltAz w (fst p) (snd p) (mjd s))) = false)
      by (apply Qle_bool_false_iff, Hlow; now left).
    rewrite Hp. apply IH. intros q Hq. apply Hlow. now right. }
  rewrite Hnone. unfold slew_time_arrays. rewrite Er, Ed.
  now destruct (approx_RaDec2AltAz w r d (mjd s)).
Qed.

(** [return_status] either stores and returns the dict built from the slew
    map, or raises what [slewtime_map] raises and stores nothing. *)
Lemma return_status_cases s :
  (exists slew, slewtime_map w (all_sky w) s = inr slew /\
                return_status c w s
                = Returned (with_status s (Some (build_status c w s slew)))
                           (build_status c w s slew)) \/
  (exists e, slewtime_map w (all_sky w) s = inl e /\
             return_status c w s = Raised s (exn_of e)).
Proof.
  unfold return_status.
  destruct (slewtime_map w (all_sky w) s) as [e|slew].
  - right. now exists e.
  - left. now exists slew.
Qed.

(** Every way out of the commit branch leaves the telescope on the target;
    the night number belongs to the clock; the status dict is the one the
    branch started with, unless it started parked and [return_status]
    stored a fresh one. *)
Lemma commit_state s req ft st total alt az :
  let s' := state_of (commit c w s req ft st total alt az) in
  ra s' = Some (req_RA req) /\ dec s' = Some (req_dec req) /\
  night s' = mjd2night c w (mjd s') /\
  night_cache s' = night_cache s.
Proof.
  unfold commit, refresh_status, return_status.
  destruct (ra s) as [r|].
  2: destruct (slewtime_map w (all_sky w) _) as [e|slew]; [simpl; tauto|].
  all: cbv zeta;
    destruct (returnMags w _ _ _) as [sky|]; [|simpl; tauto];
    match goal with |- context [status ?x] => destruct (status x) as [t|] end;
    [|simpl; tauto];
    destruct (lookup (req_filter req) (st_FWHMeff t)) as [fe|], (lookup (req_filter req) (st_FWHM_geometric t)) as [fg|];
    simpl; tauto.
Qed.

(** The status dict every way out of the commit branch leaves behind. *)
Lemma commit_status s req ft st total alt az :
  status (state_of (commit c w s req ft st total alt az)) =
  match ra s with
  | Some _ => status s
  | None =>
      match slewtime_map w (all_sky w)
              (with_pointing (set_mjd c w s (mjd s + (ft + st) * sec2days))
                             (Some (req_RA req)) (Some (req_dec req))) with
      | inr slew =>
          Some (build_status c w
                  (with_pointing (set_mjd c w s (mjd s + (ft + st) * sec2days))
                                 (Some (req_RA req)) (Some (req_dec req))) slew)
      | inl _ => status s
      end
  end.
Proof.
  unfold commit, refresh_status, return_status.
  destruct (ra s) as [r|].
  2: destruct (slewtime_map w (all_sky w) _) as [e|slew]; [reflexivity|].
  all: cbv zeta;
    cbn [status with_filtername with_status with_pointing set_mjd with_clock];
    destruct (returnMags w _ _ _) as [sky|]; [|reflexivity].
  - destruct (status s) as [t|] eqn:Et; [|simpl; now rewrite Et].
    destruct (lookup (req_filter req) (st_FWHMeff t)) as [fe|],
             (lookup (req_filter req) (st_FWHM_geometric t)) as [fg|];
      simpl; now rewrite Et.
  - match goal with
    | |- context [lookup (req_filter req) (st_FWHMeff ?t)] =>
        destruct (lookup (req_filter req) (st_FWHMeff t)) as [fe|],
                 (lookup (req_filter req) (st_FWHM_geometric t)) as [fg|]
    end; reflexivity.
Qed.

End Attempt.

Section Commit.

Variable c : Config.
Variable w : World.

(** On the target [slewtime_map] has a right ascension and a declination to
    work with: it cannot end in a TypeError. *)
Lemma slewtime_map_on_target s r d e :
  slewtime_map w (all_sky w) (with_pointing s (Some r) (Some d)) = inl e ->
  e = MapValueError.
Proof.
  unfold slewtime_map, slew_time_arrays. cbn [ra dec with_pointing mjd].
  destruct (approx_RaDec2AltAz w r d (mjd s)) as [ca cz].
  destruct (np_max _) as [ma|]; [|congruence].
  destruct (np_max _) as [mz|]; [|congruence].
  destruct (_ && _); discriminate.
Qed.

(** What a record handed back by the commit branch says, and the state that
    goes with it. *)
Lemma commit_success s req ft st total alt az s' r :
  commit c w s req ft st total alt az = Returned s' r ->
  exists o t,
    r = Some o /\
    filtername s' = Some (req_filter req) /\
    status s' = Some t /\
    lookup (req_filter req) (st_FWHMeff t) <> None /\
    ob_request o = req /\
    ob_mjd o = mjd s + (ft + st) * sec2days /\
    ob_slewtime o = ft + st /\
    ob_alt o = alt /\ ob_az o = az /\
    ob_clouds o = st_clouds t /\
    mjd s' = mjd s + (ft + st) * sec2days + total - (ft + st) * sec2days /\
    (ra s = None -> st_mjd t = mjd s + (ft + st) * sec2days).
Proof.
  unfold commit, refresh_status, return_status.
  destruct (ra s) as [r0|].
  2: destruct (slewtime_map w (all_sky w) _) as [e|slew]; [discriminate|].
  all: cbv zeta;
    cbn [status with_filtername with_status with_pointing set_mjd with_clock];
    destruct (returnMags w _ _ _) as [sky|]; [|discriminate].
  - destruct (status s) as [t|] eqn:Et; [|discriminate].
    destruct (lookup (req_filter req) (st_FWHMeff t)) as [fe|] eqn:Ee; [|discriminate].
    destruct (lookup (req_filter req) (st_FWHM_geometric t)) as [fg|]; [|discriminate].
    intro H. injection H as <- <-.
    eexists _, t. simpl. rewrite Et, Ee.
    repeat split; try reflexivity; discriminate.
  - match goal with
    | |- context [lookup (req_filter req) (st_FWHMeff ?t)] =>
        destruct (lookup (req_filter req) (st_FWHMeff t)) as [fe|] eqn:Ee; [|discriminate];
        destruct (lookup (req_filter req) (st_FWHM_geometric t)) as [fg|]; [|discriminate]
    end.
    intro H. injection H as <- <-.
    eexists _, _. simpl. split; [reflexivity|]. split; [reflexivity|].
    split; [reflexivity|]. rewrite Ee.
    repeat split; try reflexivity; discriminate.
Qed.

(** The commit branch meets an absent status dict only if it was entered
    pointing somewhere with no status stored. *)
Lemma commit_TypeError s req ft st total alt az s' :
  commit c w s req ft st total alt az = Raised s' TypeError ->
  ra s <> None /\ status s = None.
Proof.
  unfold commit, refresh_status, return_status.
  destruct (ra s) as [r0|].
  2: destruct (slewtime_map w (all_sky w) _) as [e|slew] eqn:Es;
    [apply slewtime_map_on_target in Es; subst e; discriminate|].
  all: cbv zeta;
    cbn [status with_filtername with_status with_pointing set_mjd with_clock];
    destruct (returnMags w _ _ _) as [sky|]; [|discriminate].
  - destruct (status s) as [t|] eqn:Et; [|intros _; split; [discriminate|reflexivity]].
    destruct (lookup (req_filter req) (st_FWHMeff t)) as [fe|],
             (lookup (req_filter req) (st_FWHM_geometric t)) as [fg|]; discriminate.
  - match goal with
    | |- context [lookup (req_filter req) (st_FWHMeff ?t)] =>
        destruct (lookup (req_filter req) (st_FWHMeff t)) as [fe|],
                 (lookup (req_filter req) (st_FWHM_geometric t)) as [fg|]
    end; discriminate.
Qed.

End Commit.

(** ** Invariants of the reachable states *)

Section Invariants.

Variable c : Config.
Variable w : World.

Lemma check_mjd_cache s m :
  cache_faithful c w s -> cache_faithful c w (snd (check_mjd c w s m)).
Proof.
  intros H. unfold check_mjd.
  destruct (Qle_bool _ _); [exact H|].
  destruct (night_cache s) as [k|] eqn:Ek.
  - destruct (_ || _); try destruct (good_mjds _ _ _ _); exact H.
  - destruct (_ || _); try destruct (good_mjds _ _ _ _); right; reflexivity.
Qed.

(** [return_status] assigns nothing but the status dict. *)
Lemma return_status_fields s :
  let s' := state_of (return_status c w s) in
  mjd s' = mjd s /\ night s' = night s /\ ra s' = ra s /\ dec s' = dec s /\
  filtername s' = filtername s /\ night_cache s' = night_cache s.
Proof.
  unfold return_status.
  destruct (slewtime_map w (all_sky w) s); simpl; tauto.
Qed.

Lemma attempt_observe_night s req :
  night_consistent c w s -> night_consistent c w (state_of (attempt_observe c w s req)).
Proof.
  intro H. rewrite attempt_observe_eq.
  destruct (visit_cost c w s req) as [e|[ft st]]; [exact H|].
  cbv zeta. destruct (fst (fst (check_mjd c w s _))).
  - apply commit_state.
  - destruct (reject_fields c w (snd (check_mjd c w s (mjd s + total_time c ft st req)))
                (snd (fst (check_mjd c w s (mjd s + total_time c ft st req)))))
      as (s' & -> & Hm & Hn & _).
    unfold night_consistent. simpl. now rewrite Hn, Hm.
Qed.

Lemma attempt_observe_cache s req :
  cache_faithful c w s -> cache_faithful c w (state_of (attempt_observe c w s req)).
Proof.
  intro H. rewrite attempt_observe_eq.
  destruct (visit_cost c w s req) as [e|[ft st]]; [exact H|].
  cbv zeta.
  pose proof (check_mjd_cache s (mjd s + total_time c ft st req) H) as Hc.
  destruct (fst (fst (check_mjd c w s _))).
  - unfold cache_faithful.
    destruct (commit_state c w (snd (check_mjd c w s (mjd s + total_time c ft st req)))
                req ft st (total_time c ft st req)
                (fst (target_altaz w s req)) (snd (target_altaz w s req)))
      as (_ & _ & _ & ->). exact Hc.
  - destruct (reject_fields c w (snd (check_mjd c w s (mjd s + total_time c ft st req)))
                (snd (fst (check_mjd c w s (mjd s + total_time c ft st req)))))
      as (s' & -> & _ & _ & _ & _ & _ & _ & Hk).
    unfold cache_faithful. simpl. rewrite Hk. exact Hc.
Qed.

Lemma attempt_observe_paired s req :
  pointing_paired s -> pointing_paired (state_of (attempt_observe c w s req)).
Proof.
  intro H. rewrite attempt_observe_eq.
  destruct (visit_cost c w s req) as [e|[ft st]]; [exact H|].
  cbv zeta.
  destruct (fst (fst (check_mjd c w s _))).
  - destruct (commit_state c w (snd (check_mjd c w s (mjd s + total_time c ft st req)))
                req ft st (total_time c ft st req)
                (fst (target_altaz w s req)) (snd (target_altaz w s req)))
      as (_ & Hd & _).
    intros _. rewrite Hd. discriminate.
  - destruct (reject_fields c w (snd (check_mjd c w s (mjd s + total_time c ft st req)))
                (snd (fst (check_mjd c w s (mjd s + total_time c ft st req)))))
      as (s' & -> & _ & _ & Hr & _).
    intros Hne. simpl in Hne. congruence.
Qed.

Lemma reachable_invariants s :
  reachable c w s -> night_consistent c w s /\ pointing_paired s /\ cache_faithful c w s.
Proof.
  induction 1 as [|s m _ (Hn & Hp & Hk)|s _ (Hn & Hp & Hk)
                  |s m _ (Hn & Hp & Hk)|s req _ (Hn & Hp & Hk)].
  - repeat split; try reflexivity.
    + intro E; now elim E.
    + now left.
  - repeat split; try exact Hk; try reflexivity; apply Hp; assumption.
  - destruct (return_status_fields s) as (Hm & Hni & Hra & Hdec & _ & Hc).
    unfold night_consistent, pointing_paired, cache_faithful.
    rewrite Hm, Hni, Hra, Hdec, Hc. now repeat split.
  - destruct (check_mjd_fields c w s m) as (Hm & Hni & Hra & Hdec & _ & Hst).
    unfold night_consistent, pointing_paired.
    rewrite Hm, Hni, Hra, Hdec.
    repeat split; try assumption.
    now apply check_mjd_cache.
  - split; [now apply attempt_observe_night|].
    split; [now apply attempt_observe_paired|now apply attempt_observe_cache].
Qed.

(** With a pixel in view at every instant, the commit branch entered parked
    leaves a fresh status dict. *)
Lemma commit_status_in_view s req ft st total alt az :
  sky_in_view w -> ra s = None ->
  exists slew,
    status (state_of (commit c w s req ft st total alt az)) =
    Some (build_status c w
            (with_pointing (set_mjd c w s (mjd s + (ft + st) * sec2days))
                           (Some (req_RA req)) (Some (req_dec req))) slew).
Proof.
  intros Hsky Hra. rewrite commit_status, Hra.
  destruct (slewtime_map_returns w (all_sky w)
              (with_pointing (set_mjd c w s (mjd s + (ft + st) * sec2days))
                             (Some (req_RA req)) (Some (req_dec req))))
    as (m & Hm); [discriminate|discriminate|apply Hsky|].
  rewrite Hm. now exists (Map m).
Qed.

Lemma attempt_observe_backed s req :
  sky_in_view w ->
  pointing_backed s -> pointing_backed (state_of (attempt_observe c w s req)).
Proof.
  intros Hsky H. rewrite attempt_observe_eq.
  destruct (visit_cost c w s req) as [e|[ft st]]; [exact H|].
  cbv zeta.
  destruct (check_mjd_fields c w s (mjd s + total_time c ft st req))
    as (_ & _ & Hra & Hdec & _ & Hst).
  destruct (fst (fst (check_mjd c w s _))).
  - destruct (commit_state c w (snd (check_mjd c w s (mjd s + total_time c ft st req)))
                req ft st (total_time c ft st req)
                (fst (target_altaz w s req)) (snd (target_altaz w s req)))
      as (Hr & Hd & _).
    intros _. rewrite Hd. split; [discriminate|].
    destruct (ra s) as [r0|] eqn:Er.
    + rewrite commit_status, Hra, Hst.
      apply H. rewrite Er. discriminate.
    + destruct (commit_status_in_view
                  (snd (check_mjd c w s (mjd s + total_time c ft st req)))
                  req ft st (total_time c ft st req)
                  (fst (target_altaz w s req)) (snd (target_altaz w s req)) Hsky Hra)
        as (slew & ->).
      discriminate.
  - destruct (reject_fields c w (snd (check_mjd c w s (mjd s + total_time c ft st req)))
                (snd (fst (check_mjd c w s (mjd s + total_time c ft st req)))))
      as (s' & -> & _ & _ & Hr & _).
    intros Hne. simpl in Hne. congruence.
Qed.

(** With a pixel in view at every instant, a telescope that points somewhere
    has a status dict. *)
Lemma reachable_backed s :
  sky_in_view w -> reachable c w s -> pointing_backed s.
Proof.
  intro Hsky.
  induction 1 as [|s m _ Hp|s _ Hp|s m _ Hp|s req _ Hp].
  - intro E; now elim E.
  - exact Hp.
  - unfold return_status.
    destruct (slewtime_map w (all_sky w) s); [exact Hp|].
    intro Hr. simpl in *. split; [now apply Hp|discriminate].
  - destruct (check_mjd_fields c w s m) as (_ & _ & Hra & Hdec & _ & Hst).
    unfold pointing_backed. rewrite Hra, Hdec, Hst. exact Hp.
  - now apply attempt_observe_backed.
Qed.

End Invariants.
(** ** Costing *)

Section Costing.

Variable c : Config.
Variable w : World.

Lemma slew_time_eq s alt az r d :
  ra s = Some r -> dec s = Some d ->
  slew_time w s alt az =
  inr (if Qeq_bool (fst (approx_RaDec2AltAz w r d (mjd s))) alt
          && Qeq_bool (snd (approx_RaDec2AltAz w r d (mjd s))) az
       then mintime
       else slew_interp w (fst (approx_RaDec2AltAz w r d (mjd s)))
                        (snd (approx_RaDec2AltAz w r d (mjd s))) alt az).
Proof.
  intros Hr Hd. unfold slew_time. rewrite Hr, Hd.
  destruct (approx_RaDec2AltAz w r d (mjd s)) as [ca cz]. simpl.
  now destruct (Qeq_bool ca alt && Qeq_bool cz az).
Qed.

(** Costing raises only for a telescope with a right ascension and no
    declination. *)
Lemma visit_cost_raises s req e :
  visit_cost c w s req = inl e -> ra s <> None /\ dec s = None.
Proof.
  unfold visit_cost, slew_cost, slew_time.
  destruct (ra s) as [r|]; [|discriminate].
  destruct (negb _); [discriminate|].
  destruct (dec s) as [d|]; [|split; [discriminate|reflexivity]].
  destruct (approx_RaDec2AltAz w r d (mjd s)) as [ca cz].
  destruct (_ && _); discriminate.
Qed.

(** C5.  The cost of repositioning, by cases: a parked telescope pays
    nothing; a telescope that points somewhere and holds another filter than
    the requested one pays the filter change and no slew; with the requested
    filter already in place it pays no filter change and, as slew, the fixed
    minimum of 2 s when its current alt/az equals the target's alt/az, the
    interpolated slew time between the two positions otherwise. *)
Theorem slew_cost_cases (s : State) (req : Request) :
  let alt := fst (target_altaz w s req) in
  let az := snd (target_altaz w s req) in
  mintime == 2 /\
  (ra s = None -> visit_cost c w s req = inr (0, 0)) /\
  (ra s <> None -> filtername s <> Some (req_filter req) ->
   visit_cost c w s req = inr (f_change_time c, 0)) /\
  (forall r d,
      ra s = Some r -> dec s = Some d ->
      filtername s = Some (req_filter req) ->
      let current_alt := fst (approx_RaDec2AltAz w r d (mjd s)) in
      let current_az := snd (approx_RaDec2AltAz w r d (mjd s)) in
      (current_alt == alt /\ current_az == az ->
       visit_cost c w s req = inr (0, mintime)) /\
      (~ (current_alt == alt /\ current_az == az) ->
       visit_cost c w s req =
       inr (0, slew_interp w current_alt current_az alt az))).
Proof.
  cbv zeta. split; [reflexivity|]. split; [|split].
  - intro Hr. unfold visit_cost, slew_cost. now rewrite Hr.
  - intros Hr Hf. unfold visit_cost, slew_cost.
    destruct (ra s) as [r|]; [|now elim Hr].
    destruct (filtername s) as [f|]; [|reflexivity].
    destruct (String.eqb_spec f (req_filter req)) as [->|Hne]; [now elim Hf|reflexivity].
  - intros r d Hr Hd Hf.
    assert (Hcost : forall alt az,
               slew_cost c w s req alt az =
               match slew_time w s alt az with inr st => inr (0, st) | inl e => inl e end).
    { intros alt az. unfold slew_cost. rewrite Hr, Hf, String.eqb_refl. reflexivity. }
    unfold visit_cost. rewrite Hcost, (slew_time_eq s _ _ r d Hr Hd).
    split.
    + intros [Ha Hz]. apply Qeq_bool_iff in Ha, Hz. now rewrite Ha, Hz.
    + intros Hn.
      destruct (Qeq_bool _ _) eqn:Ea; [|reflexivity].
      destruct (Qeq_bool (snd _) _) eqn:Ez; [|reflexivity].
      apply Qeq_bool_iff in Ea, Ez. elim Hn. now split.
Qed.

Lemma visit_cost_parked s req : ra s = None -> visit_cost c w s req = inr (0, 0).
Proof. intro H. unfold visit_cost, slew_cost. now rewrite H. Qed.

Lemma visit_cost_nonneg s req ft st :
  0 <= f_change_time c -> (forall a b a' b', 0 <= slew_interp w a b a' b') ->
  visit_cost c w s req = inr (ft, st) -> 0 <= ft /\ 0 <= st.
Proof.
  intros Hf Hs. unfold visit_cost, slew_cost, slew_time.
  destruct (ra s) as [r|].
  2: { intro H. injection H as <- <-. split; apply Qle_refl. }
  destruct (negb _).
  { intro H. injection H as <- <-. split; [exact Hf|apply Qle_refl]. }
  destruct (dec s) as [d|]; [|discriminate].
  destruct (approx_RaDec2AltAz w r d (mjd s)) as [ca cz].
  destruct (_ && _); intro H; injection H as <- <-;
    (split; [apply Qle_refl|]); [discriminate|apply Hs].
Qed.

Lemma total_time_positive ft st req :
  (1 <= req_nexp req)%Z -> 0 < req_exptime req ->
  0 <= readtime c -> 0 <= shutter_time c -> 0 <= ft -> 0 <= st ->
  0 < total_time c ft st req.
Proof.
  intros Hn He Hr Hs Hft Hst. unfold total_time.
  assert (Hq : 1 <= inject_Z (req_nexp req)).
  { change 1 with (inject_Z 1). now rewrite <- Zle_Qle. }
  assert (H1 : 0 <= (inject_Z (req_nexp req) - 1) * readtime c)
    by (apply Qmult_le_0_compat; lra).
  assert (H2 : 0 <= shutter_time c * inject_Z (req_nexp req))
    by (apply Qmult_le_0_compat; lra).
  apply Qmult_lt_0_compat; [lra|apply sec2days_pos].
Qed.


End Costing.

(** ** Outcomes of an attempt *)

Section Outcomes.

Variable c : Config.
Variable w : World.

(** A record comes out of the commit branch only. *)
Lemma returned_record s req s' o :
  attempt_observe c w s req = Returned s' (Some o) ->
  exists ft st s1,
    visit_cost c w s req = inr (ft, st) /\
    s1 = snd (check_mjd c w s (mjd s + total_time c ft st req)) /\
    fst (fst (check_mjd c w s (mjd s + total_time c ft st req))) = true /\
    commit c w s1 req ft st (total_time c ft st req)
           (fst (target_altaz w s req)) (snd (target_altaz w s req))
    = Returned s' (Some o).
Proof.
  rewrite attempt_observe_eq.
  destruct (visit_cost c w s req) as [e|[ft st]]; [discriminate|].
  cbv zeta. destruct (fst (fst (check_mjd c w s _))) eqn:Eok.
  - intro H. exists ft, st, (snd (check_mjd c w s (mjd s + total_time c ft st req))).
    now repeat split.
  - unfold reject. discriminate.
Qed.

(** The null result comes out of the reject branch only. *)
Lemma returned_nothing s req s' :
  attempt_observe c w s req = Returned s' None ->
  exists ft st s1,
    visit_cost c w s req = inr (ft, st) /\
    check_mjd c w s (mjd s + total_time c ft st req) = ((false, mjd s'), s1) /\
    ra s' = None /\ dec s' = None /\ filtername s' = None /\ status s' = None /\
    night s' = mjd2night c w (mjd s').
Proof.
  rewrite attempt_observe_eq.
  destruct (visit_cost c w s req) as [e|[ft st]]; [discriminate|].
  cbv zeta.
  destruct (check_mjd c w s (mjd s + total_time c ft st req)) as [[ok j] s1] eqn:Ec.
  simpl. destruct ok.
  - intro H. apply commit_success in H.
    destruct H as (o & t & Hr & _). discriminate.
  - unfold reject. intro H. injection H as <-. simpl.
    exists ft, st, s1. rewrite Ec. repeat split; reflexivity.
Qed.

Lemma gate_refusal s req ft st jump s1 :
  visit_cost c w s req = inr (ft, st) ->
  check_mjd c w s (mjd s + total_time c ft st req) = ((false, jump), s1) ->
  exists s', attempt_observe c w s req = Returned s' None /\
             ra s' = None /\ dec s' = None /\ filtername s' = None /\
             status s' = None /\
             mjd s' = jump /\ night s' = mjd2night c w jump.
Proof.
  intros Hcost Hcheck. rewrite attempt_observe_eq, Hcost. cbv zeta.
  rewrite Hcheck. simpl.
  destruct (reject_fields c w s1 jump) as (s' & Hr & Hm & Hn & Hra & Hdec & Hf & Hst & _).
  exists s'. tauto.
Qed.

(** C4.  When the gate turns the probed instant down, whatever the state
    before the call, [attempt_observe] returns the null result, leaves right
    ascension, declination and filter at None and the status dict cleared,
    sets the clock to the instant the gate proposed and the night number to
    the night of that instant. *)
Theorem rejected_attempt_parks (s : State) (req : Request)
        (ft st jump : Q) (s1 : State) :
  visit_cost c w s req = inr (ft, st) ->
  check_mjd c w s (mjd s + total_time c ft st req) = ((false, jump), s1) ->
  exists s', attempt_observe c w s req = Returned s' None /\
             ra s' = None /\ dec s' = None /\ filtername s' = None /\
             status s' = None /\
             mjd s' = jump /\ night s' = mjd2night c w jump.
Proof. apply gate_refusal. Qed.

(** C9.  The stored night number is [mjd2night] of the stored clock: in every
    state reached from [__init__] by [set_mjd], [return_status], [check_mjd]
    and [attempt_observe]; in the state [__init__] builds; after [set_mjd]
    from any state; and in the state any returning call of [attempt_observe]
    leaves, with a record or with the null result. *)
Theorem night_index_follows_clock :
  (forall s, reachable c w s -> night s = mjd2night c w (mjd s)) /\
  night (init_state c w) = mjd2night c w (mjd (init_state c w)) /\
  (forall s m, night (set_mjd c w s m) = mjd2night c w (mjd (set_mjd c w s m))) /\
  (forall s req s' r,
      attempt_observe c w s req = Returned s' r ->
      night s' = mjd2night c w (mjd s')).
Proof.
  split; [|split; [reflexivity|split; [reflexivity|]]].
  - intros s H. now apply (reachable_invariants c w s H).
  - intros s req s' [o|] H.
    + destruct (returned_record _ _ _ _ H) as (ft & st & s1 & _ & _ & _ & Hc).
      pose proof (commit_state c w s1 req ft st (total_time c ft st req)
                    (fst (target_altaz w s req)) (snd (target_altaz w s req))) as Hs.
      rewrite Hc in Hs. apply Hs.
    + now destruct (returned_nothing _ _ _ H) as (ft & st & s1 & _ & _ & _ & _ & _ & _ & Hn).
Qed.

(** C10, as amended.  In a state reached from [__init__] by [set_mjd],
    [return_status], [check_mjd] and [attempt_observe], provided that at
    every instant some pixel of the sky is at or above [alt_limit] (so that
    [slewtime_map], and with it [return_status], cannot fail on a telescope
    that points somewhere), a set right ascension comes with a stored status
    dict, and [attempt_observe] never fails on an absent status dict (nor on
    an absent declination).  With or without that proviso, when the call
    hands back a record from the parked state the status dict is the one
    computed at the start of the exposure; from a tracking state it is the
    one that was there. *)
Theorem status_backs_pointing (s : State) :
  reachable c w s ->
  (sky_in_view w ->
   (ra s <> None -> status s <> None) /\
   (forall req s', attempt_observe c w s req <> Raised s' TypeError)) /\
  (forall req s' o,
      attempt_observe c w s req = Returned s' (Some o) ->
      (ra s = None -> exists t, status s' = Some t /\ st_mjd t = ob_mjd o) /\
      (ra s <> None -> status s' = status s)).
Proof.
  intro Hreach. split.
  - intro Hsky.
    pose proof (reachable_backed c w s Hsky Hreach) as Hp.
    split; [intro H; now apply Hp|].
    intros req s' H. rewrite attempt_observe_eq in H.
    destruct (visit_cost c w s req) as [e|[ft st]] eqn:Ec.
    + destruct (visit_cost_raises c w s req e Ec) as [Hr Hd].
      destruct (Hp Hr) as [Hd' _]. now elim Hd'.
    + cbv zeta in H.
      destruct (check_mjd_fields c w s (mjd s + total_time c ft st req))
        as (_ & _ & Hra & _ & _ & Hst).
      destruct (fst (fst (check_mjd c w s _))).
      * apply commit_TypeError in H. destruct H as [Hr Hs].
        rewrite Hra in Hr. rewrite Hst in Hs.
        destruct (Hp Hr) as [_ Hs']. now elim Hs'.
      * unfold reject in H. discriminate.
  - intros req s' o H.
    destruct (returned_record _ _ _ _ H) as (ft & st & s1 & _ & Hs1 & _ & Hc).
    destruct (check_mjd_fields c w s (mjd s + total_time c ft st req))
      as (Hm & _ & Hra & _ & _ & Hst).
    rewrite <- Hs1 in Hm, Hra, Hst.
    pose proof (commit_status c w s1 req ft st (total_time c ft st req)
                  (fst (target_altaz w s req)) (snd (target_altaz w s req))) as Hs.
    rewrite Hc in Hs. simpl in Hs.
    destruct (commit_success _ _ _ _ _ _ _ _ _ _ _ Hc)
      as (o' & t & Ho & _ & Ht & _ & _ & Hom & _ & _ & _ & _ & _ & Hnew).
    injection Ho as <-.
    rewrite Hra in *. split.
    + intro Hr. exists t. split; [exact Ht|]. now rewrite Hom, (Hnew Hr).
    + intro Hr. rewrite Hs, Hst. destruct (ra s); [reflexivity|now elim Hr].
Qed.

(** C8.  After every call of [attempt_observe] that hands back a record, the
    right ascension and declination of the state are the request's, and the
    filter of the state is the request's filter name: for every filter name,
    and so for each of u, g, r, i, z, y. *)
Theorem successful_attempt_points_at_request
        (s : State) (req : Request) (s' : State) (o : Observation) :
  attempt_observe c w s req = Returned s' (Some o) ->
  ra s' = Some (req_RA req) /\ dec s' = Some (req_dec req) /\
  filtername s' = Some (req_filter req) /\
  (In (req_filter req) filters -> filtername s' = Some (req_filter req)).
Proof.
  intro H.
  destruct (returned_record _ _ _ _ H) as (ft & st & s1 & _ & _ & _ & Hc).
  pose proof (commit_state c w s1 req ft st (total_time c ft st req)
                (fst (target_altaz w s req)) (snd (target_altaz w s req))) as Hs.
  cbv zeta in Hs. rewrite Hc in Hs. simpl in Hs.
  destruct Hs as (Hra & Hdec & _).
  destruct (commit_success _ _ _ _ _ _ _ _ _ _ _ Hc) as (o' & t & _ & Hf & _).
  split; [exact Hra|]. split; [exact Hdec|]. split; [exact Hf|].
  intros _. exact Hf.
Qed.


End Outcomes.

(** ** The gate *)

Section Gate.

Variable c : Config.
Variable w : World.

Lemma ascending_cons_inv x a :
  ascending (x :: a) -> ascending a /\ forall y, In y a -> x <= y.
Proof.
  intro H. split.
  - intros i j Hij. apply (H (S i) (S j)). simpl. lia.
  - intros y Hy. destruct (In_nth a y 0 Hy) as (n & Hn & <-).
    apply (H 0%nat (S n)). simpl. lia.
Qed.

Lemma good_mjds_rows (l : list (Q * Q)) m :
  map (fun r => fst (fst r))
      (filter (fun r => Qlt_bool m (fst (fst r))
                        && Qle_bool (snd (fst r)) (sun_limit c) && snd r)
              (combine l (compute_good_nights w
                            (map (fun r => mjd2night c w (fst r)) l))))
  = map fst (filter (qualifies_bool c w m) l).
Proof.
  induction l as [|r l IH]; [reflexivity|].
  simpl. unfold qualifies_bool at 1.
  destruct (_ && _ && _); simpl; now rewrite IH.
Qed.

Lemma good_mjds_faithful m :
  good_mjds c w (compute_good_nights w (sky_nights c w)) m
  = map fst (filter (qualifies_bool c w m) (sky_info w)).
Proof. apply good_mjds_rows. Qed.

Lemma qualifies_bool_iff m x alt :
  qualifies_bool c w m (x, alt) = true <->
  m < x /\ alt <= sun_limit c /\ in_down_nights w (mjd2night c w x) = false.
Proof.
  unfold qualifies_bool. simpl.
  rewrite !andb_true_iff, Qlt_bool_iff, Qle_bool_iff, negb_true_iff. tauto.
Qed.

(** The first qualifying row of an ascending table is its earliest. *)
Lemma first_qualifying (l : list (Q * Q)) m :
  ascending (map fst l) ->
  match map fst (filter (qualifies_bool c w m) l) with
  | [] => forall r, In r l -> qualifies_bool c w m r = false
  | x :: _ => (exists alt, In (x, alt) l /\ qualifies_bool c w m (x, alt) = true) /\
              forall r, In r l -> qualifies_bool c w m r = true -> x <= fst r
  end.
Proof.
  induction l as [|[x alt] l IH]; intro Ha; simpl.
  - intros r [].
  - simpl in Ha. apply ascending_cons_inv in Ha. destruct Ha as [Ha Hmin].
    specialize (IH Ha).
    destruct (qualifies_bool c w m (x, alt)) eqn:Eq; simpl.
    + split.
      * exists alt. split; [now left|exact Eq].
      * intros r [<-|Hr] _; [apply Qle_refl|].
        apply Hmin. now apply in_map.
    + destruct (map fst (filter (qualifies_bool c w m) l)) as [|y ys].
      * intros r [<-|Hr]; [exact Eq|now apply IH].
      * destruct IH as [(alt' & Hin & Hq) Hle]. split.
        -- exists alt'. split; [now right|exact Hq].
        -- intros r [<-|Hr] Hqr; [congruence|now apply Hle].
Qed.

(** Past the cloud test, [check_mjd] works with the nights of the sky
    table, whether it finds the cache or creates it. *)
Lemma check_mjd_past_clouds s m :
  cache_faithful c w s ->
  get_cloud w (delta_t c s) < cloud_limit c ->
  fst (check_mjd c w s m) =
  if Qlt_bool (sun_limit c) (sun_alt w m) || in_down_nights w (mjd2night c w m)
  then match map fst (filter (qualifies_bool c w m) (sky_info w)) with
       | [] => (false, m + (1 # 4))
       | m' :: _ => (false, m')
       end
  else (true, m).
Proof.
  intros Hk Hcl. unfold check_mjd.
  apply Qle_bool_false_iff in Hcl. rewrite Hcl.
  destruct Hk as [Hk|Hk]; rewrite Hk;
    cbn [night_cache with_night_cache snd]; rewrite ?Hk;
    cbn [night_cache with_night_cache snd];
    rewrite good_mjds_faithful;
    destruct (_ || _); try reflexivity;
    destruct (map fst _); reflexivity.
Qed.

(** C7.  The second step of the gate, reached when the cloud test has
    passed.  In a state reached from [__init__] by [set_mjd],
    [return_status], [check_mjd] and [attempt_observe], with the sky table
    in ascending order of time, when the sun at [m] is above the limit or the
    night of [m] is closed, [check_mjd] says no and proposes the earliest
    instant of the sky table that is later than [m], has the sun at or below
    the limit and lies in a night that is not closed; when the table has no
    such instant it proposes [m + 0.25]. *)
Theorem dark_gate_jumps_to_next_dark (s : State) (m : Q) :
  reachable c w s ->
  ascending (map fst (sky_info w)) ->
  get_cloud w (delta_t c s) < cloud_limit c ->
  sun_limit c < sun_alt w m \/ in_down_nights w (mjd2night c w m) = true ->
  exists cand,
    fst (check_mjd c w s m) = (false, cand) /\
    ((qualifies c w m cand /\ forall x, qualifies c w m x -> cand <= x) \/
     ((forall x, ~ qualifies c w m x) /\ cand = m + (1 # 4))).
Proof.
  intros Hreach Hasc Hcl Hbad.
  destruct (reachable_invariants c w s Hreach) as (_ & _ & Hk).
  rewrite (check_mjd_past_clouds s m Hk Hcl).
  assert (E : Qlt_bool (sun_limit c) (sun_alt w m)
              || in_down_nights w (mjd2night c w m) = true).
  { apply orb_true_iff. destruct Hbad as [H|H]; [left|right; exact H].
    now apply Qlt_bool_iff. }
  rewrite E.
  pose proof (first_qualifying (sky_info w) m Hasc) as Hfirst.
  destruct (map fst (filter (qualifies_bool c w m) (sky_info w))) as [|x xs].
  - exists (m + (1 # 4)). split; [reflexivity|]. right. split; [|reflexivity].
    intros x (alt & Hin & Hq). apply (proj2 (qualifies_bool_iff m x alt)) in Hq.
    rewrite (Hfirst _ Hin) in Hq. discriminate.
  - destruct Hfirst as [(alt & Hin & Hq) Hle].
    exists x. split; [reflexivity|]. left. split.
    + exists alt. split; [exact Hin|]. now apply qualifies_bool_iff.
    + intros y (alt' & Hin' & Hq').
      apply (Hle (y, alt') Hin'). now apply qualifies_bool_iff.
Qed.

(** C2, as amended.  When the cloud fraction [check_mjd] obtains from the
    cloud model is at or above [cloud_limit], [check_mjd m] says no and
    proposes [m + cloud_step] for every [m], and [attempt_observe] returns
    the null result with the clock at the clock before the call plus the
    whole visit time plus [cloud_step]. *)
Theorem cloudy_attempt_retries (s : State) (req : Request) (ft st : Q) :
  cloud_limit c <= get_cloud w (delta_t c s) ->
  visit_cost c w s req = inr (ft, st) ->
  (forall m, check_mjd c w s m = ((false, m + cloud_step c), s)) /\
  exists s', attempt_observe c w s req = Returned s' None /\
             mjd s' == mjd s + total_time c ft st req + cloud_step c.
Proof.
  intros Hcl Hcost.
  assert (Hcheck : forall m, check_mjd c w s m = ((false, m + cloud_step c), s)).
  { intro m. unfold check_mjd. apply Qle_bool_iff in Hcl. now rewrite Hcl. }
  split; [exact Hcheck|].
  destruct (gate_refusal c w s req ft st _ s Hcost (Hcheck _))
    as (s' & Hr & _ & _ & _ & _ & Hm & _).
  exists s'. split; [exact Hr|]. now rewrite Hm.
Qed.

(** C1, as amended.  [attempt_observe] examines neither the exposure count
    nor the filter before it costs and gates a request: for every request
    that is costed, if the gate accepts the probed instant the call leaves
    the telescope on the request's right ascension and declination, whether
    it hands back a record or ends in an exception; if the gate refuses, the
    call returns the null result with the telescope parked at the instant the
    gate proposed. *)
Theorem attempt_observe_checks_nothing (s : State) (req : Request) (ft st : Q) :
  visit_cost c w s req = inr (ft, st) ->
  (fst (fst (check_mjd c w s (mjd s + total_time c ft st req))) = true ->
   ra (state_of (attempt_observe c w s req)) = Some (req_RA req) /\
   dec (state_of (attempt_observe c w s req)) = Some (req_dec req)) /\
  (fst (fst (check_mjd c w s (mjd s + total_time c ft st req))) = false ->
   exists s', attempt_observe c w s req = Returned s' None /\
              ra s' = None /\ dec s' = None /\
              mjd s' = snd (fst (check_mjd c w s (mjd s + total_time c ft st req)))).
Proof.
  intro Hcost. split; intro Hok.
  - rewrite attempt_observe_eq, Hcost. cbv zeta. rewrite Hok.
    split; apply commit_state.
  - destruct (check_mjd c w s (mjd s + total_time c ft st req)) as [[ok j] s1] eqn:Ec.
    simpl in Hok. subst ok.
    destruct (gate_refusal c w s req ft st j s1 Hcost Ec)
      as (s' & Hr & Hra & Hdec & _ & _ & Hm & _).
    exists s'. simpl. tauto.
Qed.

End Gate.

(** ** The theorems at work on the concrete observatory *)

Lemma slew_cost_cases_witness :
  visit_cost Demo.config Demo.clear_dark Demo.tracking Demo.request = inr (0, mintime).
Proof.
  destruct (slew_cost_cases Demo.config Demo.clear_dark Demo.tracking Demo.request)
    as (_ & _ & _ & H).
  apply (H 0 (- (5236 # 10000))).
  - vm_compute. reflexivity.
  - vm_compute. reflexivity.
  - vm_compute. reflexivity.
  - split; vm_compute; reflexivity.
Defined.

Lemma rejected_attempt_parks_witness :
  exists s',
    attempt_observe Demo.config Demo.clear_day (Demo.parked Demo.clear_day) Demo.request
    = Returned s' None /\
    ra s' = None /\ dec s' = None /\ filtername s' = None /\ status s' = None /\
    mjd s' = 59854 /\ night s' = mjd2night Demo.config Demo.clear_day 59854.
Proof.
  apply (rejected_attempt_parks Demo.config Demo.clear_day
           (Demo.parked Demo.clear_day) Demo.request 0 0 59854
           (snd (check_mjd Demo.config Demo.clear_day (Demo.parked Demo.clear_day)
                   (mjd (Demo.parked Demo.clear_day)
                    + total_time Demo.config 0 0 Demo.request)))).
  - vm_compute. reflexivity.
  - vm_compute. reflexivity.
Defined.

Lemma night_index_follows_clock_witness :
  reachable Demo.config Demo.clear_dark Demo.tracking /\
  night Demo.tracking = mjd2night Demo.config Demo.clear_dark (mjd Demo.tracking).
Proof.
  assert (H : reachable Demo.config Demo.clear_dark Demo.tracking)
    by (apply reach_attempt_observe, reach_init).
  split; [exact H|].
  now apply (proj1 (night_index_follows_clock Demo.config Demo.clear_dark)).
Defined.

Lemma status_backs_pointing_witness :
  reachable Demo.config Demo.clear_dark Demo.tracking /\
  ra Demo.tracking <> None /\ status Demo.tracking <> None.
Proof.
  assert (H : reachable Demo.config Demo.clear_dark Demo.tracking)
    by (apply reach_attempt_observe, reach_init).
  assert (Hra : ra Demo.tracking <> None) by (vm_compute; discriminate).
  split; [exact H|]. split; [exact Hra|].
  apply (proj1 (status_backs_pointing Demo.config Demo.clear_dark Demo.tracking H));
    [|exact Hra].
  intro m. exists (0, 1 # 2). split; [now left|vm_compute; discriminate].
Defined.

Lemma successful_attempt_points_at_request_witness :
  exists s' o,
    attempt_observe Demo.config Demo.clear_dark (Demo.parked Demo.clear_dark) Demo.request
    = Returned s' (Some o) /\
    In (req_filter Demo.request) filters /\
    ra s' = Some 0 /\ dec s' = Some (- (5236 # 10000)) /\
    filtername s' = Some "r"%string.
Proof.
  eexists. eexists. split; [vm_compute; reflexivity|].
  split; [vm_compute; tauto|].
  match goal with
  | |- ra ?s = _ /\ _ =>
      destruct (successful_attempt_points_at_request Demo.config Demo.clear_dark
                  (Demo.parked Demo.clear_dark) Demo.request s _
                  ltac:(vm_compute; reflexivity))
        as (Hra & Hdec & _ & Hf)
  end.
  split; [exact Hra|]. split; [exact Hdec|].
  apply Hf. vm_compute. tauto.
Defined.


Lemma dark_gate_jumps_to_next_dark_witness :
  exists cand,
    fst (check_mjd Demo.config Demo.clear_day (Demo.parked Demo.clear_day) (119707 # 2))
    = (false, cand) /\
    ((qualifies Demo.config Demo.clear_day (119707 # 2) cand /\
      forall x, qualifies Demo.config Demo.clear_day (119707 # 2) x -> cand <= x) \/
     ((forall x, ~ qualifies Demo.config Demo.clear_day (119707 # 2) x) /\
      cand = (119707 # 2) + (1 # 4))).
Proof.
  apply (dark_gate_jumps_to_next_dark Demo.config Demo.clear_day).
  - apply reach_init.
  - apply ascending_bool_sound. reflexivity.
  - reflexivity.
  - left. reflexivity.
Defined.

Lemma cloudy_attempt_retries_witness :
  (forall m, check_mjd Demo.config Demo.overcast_dark (Demo.parked Demo.overcast_dark) m
             = ((false, m + cloud_step Demo.config), Demo.parked Demo.overcast_dark)) /\
  exists s',
    attempt_observe Demo.config Demo.overcast_dark (Demo.parked Demo.overcast_dark)
                    Demo.request = Returned s' None /\
    mjd s' == mjd (Demo.parked Demo.overcast_dark)
              + total_time Demo.config 0 0 Demo.request + cloud_step Demo.config.
Proof.
  apply (cloudy_attempt_retries Demo.config Demo.overcast_dark).
  - vm_compute. discriminate.
  - vm_compute. reflexivity.
Defined.

Lemma attempt_observe_checks_nothing_witness :
  ra (state_of (attempt_observe Demo.config Demo.clear_dark
                  (Demo.parked Demo.clear_dark) Demo.request_nofilter)) = Some 0 /\
  dec (state_of (attempt_observe Demo.config Demo.clear_dark
                   (Demo.parked Demo.clear_dark) Demo.request_nofilter))
  = Some (- (5236 # 10000)).
Proof.
  apply (attempt_observe_checks_nothing Demo.config Demo.clear_dark
           (Demo.parked Demo.clear_dark) Demo.request_nofilter 0 0).
  - vm_compute. reflexivity.
  - vm_compute. reflexivity.
Defined.

(** ** Where the code departs from the stated behaviour *)

(** C1 fails: a request for zero exposures is not turned away.  From the
    parked state under a clear dark sky it is costed, gated and committed:
    a record comes back and the telescope is left on the target. *)
Lemma invalid_request_is_executed :
  (req_nexp Demo.request_nexp0 < 1)%Z /\
  ra (Demo.parked Demo.clear_dark) = None /\
  exists s' o,
    attempt_observe Demo.config Demo.clear_dark (Demo.parked Demo.clear_dark)
                    Demo.request_nexp0 = Returned s' (Some o) /\
    ra s' = Some 0 /\
    ~ mjd s' == mjd (Demo.parked Demo.clear_dark).
Proof.
  split; [reflexivity|]. split; [reflexivity|].
  eexists. eexists. split; [vm_compute; reflexivity|].
  split; [reflexivity|]. vm_compute. discriminate.
Qed.

(** C2 fails: with the cloud fraction above the limit at every instant, the
    rejected attempt leaves the clock at the end of the visit plus
    [cloud_step], which is not the clock before the call plus [cloud_step]. *)
Lemma cloudy_attempt_overshoots_cloud_step :
  (forall t, cloud_limit Demo.config <= get_cloud Demo.overcast_dark t) /\
  exists s',
    attempt_observe Demo.config Demo.overcast_dark (Demo.parked Demo.overcast_dark)
                    Demo.request = Returned s' None /\
    ~ mjd s' == mjd (Demo.parked Demo.overcast_dark) + cloud_step Demo.config.
Proof.
  split; [intro t; vm_compute; discriminate|].
  eexists. split; [vm_compute; reflexivity|].
  vm_compute. discriminate.
Qed.

(** C10 fails: with a sky whose pixels never reach [alt_limit], the first
    visit from the parked state ends in the ValueError of [slewtime_map]
    after the telescope was put on the target and before any status dict was
    stored.  The state it leaves is reachable, points somewhere and has no
    status dict, and the next visit from it ends in the TypeError of
    subscripting the absent dict. *)
Lemma pointing_without_status_under_low_sky :
  exists s1,
    attempt_observe Demo.config Demo.clear_dark_low (Demo.parked Demo.clear_dark_low)
                    Demo.request = Raised s1 ValueError /\
    reachable Demo.config Demo.clear_dark_low s1 /\
    ra s1 <> None /\ status s1 = None /\
    exists s2,
      attempt_observe Demo.config Demo.clear_dark_low s1 Demo.request
      = Raised s2 TypeError.
Proof.
  exists (state_of (attempt_observe Demo.config Demo.clear_dark_low
                      (Demo.parked Demo.clear_dark_low) Demo.request)).
  split; [vm_compute; reflexivity|].
  split; [apply reach_attempt_observe, reach_init|].
  split; [vm_compute; discriminate|].
  split; [vm_compute; reflexivity|].
  eexists. vm_compute. reflexivity.
Qed.

(** * Further properties of the module *)

(** Decide every comparison in sight, innermost first, and turn it into an
    inequality. *)
Ltac split_comparisons :=
  repeat match goal with
         | |- context [Qlt_bool ?p ?q] =>
             lazymatch p with context [Qlt_bool _ _] => fail | _ => idtac end;
             lazymatch q with context [Qlt_bool _ _] => fail | _ => idtac end;
             let E := fresh "E" in
             destruct (Qlt_bool p q) eqn:E;
             [apply Qlt_bool_iff in E | apply Qlt_bool_false_iff in E]
         end.

(** ** inrange *)

Lemma inrange_nth l lo hi : forall i,
  (i < length l)%nat ->
  nth i (inrange l lo hi) 0 =
  (if Qlt_bool hi (if Qlt_bool (nth i l 0) lo then lo else nth i l 0)
   then hi
   else if Qlt_bool (nth i l 0) lo then lo else nth i l 0).
Proof.
  unfold inrange. induction l as [|x l IH]; intros i Hi; simpl in Hi; [lia|].
  destruct i as [|i']; simpl; [reflexivity|].
  apply IH. lia.
Qed.

Lemma inrange_length l lo hi : length (inrange l lo hi) = length l.
Proof. unfold inrange. now rewrite !length_map. Qed.

(** X1.  With [minimum <= maximum], [inrange] keeps the length of the array
    and puts every entry into the interval: an entry inside it is returned
    as it is, an entry below it becomes [minimum], an entry above it becomes
    [maximum]. *)
Theorem inrange_clamps (l : list Q) (lo hi : Q) :
  lo <= hi ->
  length (inrange l lo hi) = length l /\
  forall i, (i < length l)%nat ->
    lo <= nth i (inrange l lo hi) 0 <= hi /\
    (lo <= nth i l 0 <= hi -> nth i (inrange l lo hi) 0 = nth i l 0) /\
    (nth i l 0 < lo -> nth i (inrange l lo hi) 0 = lo) /\
    (hi < nth i l 0 -> nth i (inrange l lo hi) 0 = hi).
Proof.
  intro Hb. split; [apply inrange_length|].
  intros i Hi. rewrite (inrange_nth l lo hi i Hi).
  split_comparisons; repeat split; intros;
    repeat match goal with H : _ /\ _ |- _ => destruct H end;
    try reflexivity; try lra; exfalso; lra.
Qed.

Lemma inrange_clamps_witness :
  inrange [- (5 # 2); 1 # 3; 7] (- 1) 1 = [- 1; 1 # 3; 1] /\
  nth 0 (inrange [- (5 # 2); 1 # 3; 7] (- 1) 1) 0 = - 1.
Proof.
  split; [reflexivity|].
  apply (inrange_clamps [- (5 # 2); 1 # 3; 7] (- 1) 1); [discriminate|simpl; lia|reflexivity].
Defined.

(** X2.  Clamping twice is clamping once, whatever the bounds. *)
Theorem inrange_idempotent (l : list Q) (lo hi : Q) :
  inrange (inrange l lo hi) lo hi = inrange l lo hi.
Proof.
  unfold inrange. rewrite !map_map.
  apply map_ext. intro x.
  split_comparisons; try reflexivity; exfalso; lra.
Qed.

(** X3.  With the bounds the wrong way round ([maximum < minimum]) every
    entry comes back as [maximum]. *)
Theorem inrange_inverted_bounds (l : list Q) (lo hi : Q) :
  hi < lo -> inrange l lo hi = repeat hi (length l).
Proof.
  intro Hb. unfold inrange. rewrite map_map.
  induction l as [|x l IH]; simpl; [reflexivity|].
  rewrite IH. f_equal.
  split_comparisons; try reflexivity; exfalso; lra.
Qed.

Lemma inrange_inverted_bounds_witness :
  inrange [- 3; 0; 5] 1 (- 1) = [- 1; - 1; - 1].
Proof.
  apply (inrange_inverted_bounds [- 3; 0; 5] 1 (- 1)). reflexivity.
Defined.

(** ** dummy_time_handler *)

(** X4.  [time_since_given_datetime] measures from [datetime1] to
    [datetime2] in seconds, and with [reverse] the other way round: the two
    results are opposite.  Without a second datetime it measures against
    1970-01-01, so that for a [datetime1] after that day the plain call is
    negative and the reversed call is the positive number of seconds since
    then. *)
Theorem time_since_given_datetime_sign
        (to_datetime : Q -> datetime) (mjd_init : Q)
        (datetime1 : datetime) (datetime2 : option datetime) :
  let h := new_time_handler to_datetime mjd_init in
  time_since_given_datetime h datetime1 datetime2 true
  == - time_since_given_datetime h datetime1 datetime2 false /\
  ((datetime_1970_1_1 < datetime1)%Z ->
   time_since_given_datetime h datetime1 None false < 0 /\
   0 < time_since_given_datetime h datetime1 None true /\
   time_since_given_datetime h datetime1 None true
   == inject_Z (datetime1 - datetime_1970_1_1) / 1000000).
Proof.
  cbv zeta. unfold time_since_given_datetime, total_seconds. split.
  - destruct datetime2 as [d|]; unfold Qeq, Qopp; cbn [Qnum Qden]; lia.
  - intro H. cbn [unix_start new_time_handler]. repeat split.
    + unfold Qlt. cbn [Qnum Qden]. lia.
    + unfold Qlt. cbn [Qnum Qden]. lia.
    + unfold Qeq, Qdiv, Qmult, Qinv, inject_Z. cbn [Qnum Qden]. lia.
Qed.

Lemma time_since_given_datetime_sign_witness :
  time_since_given_datetime (new_time_handler (fun _ => 0%Z) 59853)
    (datetime_1970_1_1 + 1500000)%Z None true == 3 # 2.
Proof.
  destruct (time_since_given_datetime_sign (fun _ => 0%Z) 59853
              (datetime_1970_1_1 + 1500000)%Z None) as [_ H].
  destruct H as (_ & _ & H); [reflexivity|].
  rewrite H. reflexivity.
Defined.

(** ** The closed nights *)

Lemma range_In a len n : In n (range a len) <-> (a <= n < a + len)%Z.
Proof.
  unfold range. rewrite in_map_iff. split.
  - intros (i & <- & Hi). apply in_seq in Hi. lia.
  - intros H. exists (Z.to_nat (n - a)). split; [lia|].
    apply in_seq. lia.
Qed.

Lemma insert_sorted_In x a l : In x (insert_sorted a l) <-> x = a \/ In x l.
Proof.
  induction l as [|y t IH]; simpl; [intuition|].
  destruct (a <=? y)%Z; simpl; [intuition|].
  rewrite IH. intuition.
Qed.

Lemma sort_In x l : In x (sort l) <-> In x l.
Proof.
  unfold sort. induction l as [|a l IH]; simpl; [tauto|].
  rewrite insert_sorted_In, IH. intuition.
Qed.

Lemma insert_sorted_sorted a l :
  StronglySorted Z.le l -> StronglySorted Z.le (insert_sorted a l).
Proof.
  induction 1 as [|y t Hs IH Hall]; simpl.
  - constructor; constructor.
  - destruct (Z.leb_spec a y) as [Hle|Hgt].
    + constructor; [now constructor|].
      constructor; [exact Hle|].
      rewrite Forall_forall in *. intros z Hz. specialize (Hall z Hz). lia.
    + constructor; [exact IH|].
      rewrite Forall_forall in *. intros z Hz.
      apply insert_sorted_In in Hz. destruct Hz as [->|Hz]; [lia|now apply Hall].
Qed.

Lemma sort_sorted l : StronglySorted Z.le (sort l).
Proof.
  unfold sort. induction l as [|a l IH]; simpl; [constructor|].
  now apply insert_sorted_sorted.
Qed.

(** X5.  [self.down_nights] lists, in ascending order, exactly the nights
    covered by a scheduled or unscheduled downtime [(first night, length)],
    and a night number is found in it exactly when some downtime covers it. *)
Theorem down_nights_cover_downtimes (w : World) :
  StronglySorted Z.le (down_nights w) /\
  (forall n, In n (down_nights w) <->
             exists d, In d (downtimes w) /\ (fst d <= n < fst d + snd d)%Z) /\
  (forall n, in_down_nights w n = true <->
             exists d, In d (downtimes w) /\
                       (fst d <= Z.of_nat n < fst d + snd d)%Z).
Proof.
  assert (Hin : forall n, In n (down_nights w) <->
                  exists d, In d (downtimes w) /\ (fst d <= n < fst d + snd d)%Z).
  { intro n. unfold down_nights, downtimes.
    rewrite sort_In, <- flat_map_app, in_flat_map.
    split; intros (d & Hd & H); exists d; (split; [exact Hd|]); now apply range_In. }
  split; [apply sort_sorted|]. split; [exact Hin|].
  intro n. unfold in_down_nights. rewrite existsb_exists. rewrite <- Hin. split.
  - intros (z & Hz & E). apply Z.eqb_eq in E. now subst z.
  - intro H. exists (Z.of_nat n). split; [exact H|apply Z.eqb_refl].
Qed.

Lemma down_nights_cover_downtimes_witness :
  in_down_nights (Demo.world Demo.clear Demo.dark [(3%Z, 2%Z)]) 4 = true.
Proof.
  apply (down_nights_cover_downtimes (Demo.world Demo.clear Demo.dark [(3%Z, 2%Z)])).
  exists (3%Z, 2%Z). split; [now left|simpl; lia].
Defined.

(** ** The table of sunsets *)

Lemma insert_first_keeps k x l r : In r l -> In r (insert_first k x l).
Proof.
  induction l as [|[k' x'] t IH]; simpl; [tauto|].
  destruct (k <? k')%Z; [simpl; tauto|].
  destruct (k =? k')%Z; [simpl; tauto|].
  simpl. intros [<-|H]; [now left|right; now apply IH].
Qed.

Lemma insert_first_has_key k x l :
  exists y, In (k, y) (insert_first k x l).
Proof.
  induction l as [|[k' x'] t IH]; simpl.
  - exists x. now left.
  - destruct (k <? k')%Z; [exists x; now left|].
    destruct (Z.eqb_spec k k') as [->|Hne]; [exists x'; now left|].
    destruct IH as (y & Hy). exists y. now right.
Qed.

Lemma unique_first_from rows : forall acc r,
  In r (fold_left (fun acc r => insert_first (fst r) (snd r) acc) rows acc) ->
  In r rows \/ In r acc.
Proof.
  induction rows as [|[k x] rows IH]; intros acc r H; simpl in *; [now right|].
  destruct (IH _ _ H) as [Hr|Hr]; [left; now right|].
  destruct (insert_first_In _ _ _ _ Hr) as [->|Hin]; [left; now left|now right].
Qed.

Lemma unique_first_keeps rows : forall acc r,
  In r acc ->
  In r (fold_left (fun acc r => insert_first (fst r) (snd r) acc) rows acc).
Proof.
  induction rows as [|[k x] rows IH]; intros acc r H; simpl; [exact H|].
  apply IH. now apply insert_first_keeps.
Qed.

Lemma unique_first_has_key rows : forall acc k x,
  In (k, x) rows ->
  exists y, In (k, y) (fold_left (fun acc r => insert_first (fst r) (snd r) acc) rows acc).
Proof.
  induction rows as [|[k' x'] rows IH]; intros acc k x H; simpl in *; [tauto|].
  destruct H as [E|H].
  - injection E as -> ->.
    destruct (insert_first_has_key k x acc) as (y & Hy).
    exists y. now apply unique_first_keeps.
  - now apply (IH _ k x).
Qed.

Lemma keyed_sorted_unique (l : list (Z * Q)) r1 r2 :
  StronglySorted (fun a b => (fst a < fst b)%Z) l ->
  In r1 l -> In r2 l -> fst r1 = fst r2 -> r1 = r2.
Proof.
  induction 1 as [|r t Hs IH Hall]; simpl; [tauto|].
  rewrite Forall_forall in Hall.
  intros [<-|H1] [<-|H2] E; try reflexivity.
  - specialize (Hall _ H2). lia.
  - specialize (Hall _ H1). lia.
  - now apply IH.
Qed.

(** The table before it is cut at [mjd_start]: its rows carry the rounded
    value as key, in strictly increasing order, and come from the input. *)
Lemma sunset_rows setting :
  let rows := unique_first (combine (map (fun x => round_half_even (x * 100)) setting)
                                    setting) in
  StronglySorted (fun a b => (fst a < fst b)%Z) rows /\
  (forall r, In r rows -> fst r = round_half_even (snd r * 100) /\ In (snd r) setting) /\
  (forall x, In x setting -> exists y, In (round_half_even (x * 100), y) rows).
Proof.
  cbv zeta. unfold unique_first.
  destruct (unique_first_invariant
              (fun r => fst r = round_half_even (snd r * 100))
              (combine (map (fun x => round_half_even (x * 100)) setting) setting) [])
    as [Hs Hk]; [constructor|constructor|
                 apply (combine_map_keyed (fun x => round_half_even (x * 100)))|].
  split; [exact Hs|]. split.
  - intros r Hr. rewrite Forall_forall in Hk. split; [now apply Hk|].
    destruct (unique_first_from _ _ _ Hr) as [Hin|[]].
    destruct r as [k x]. now apply in_combine_r in Hin.
  - intros x Hx. apply (unique_first_has_key _ [] _ x).
    clear -Hx. induction setting as [|a l IH]; simpl in *; [tauto|].
    destruct Hx as [->|Hx]; [now left|right; now apply IH].
Qed.

(** An entry of a table is before the cut or after it. *)
Lemma skipn_In_or (a : list Q) n y :
  In y a -> In y (skipn n a) \/ exists i, (i < n)%nat /\ (i < length a)%nat /\ nth i a 0 = y.
Proof.
  intro H. destruct (In_nth a y 0 H) as (i & Hi & E).
  destruct (Nat.lt_ge_cases i n) as [Hlt|Hge]; [right; now exists i|].
  left. rewrite <- E. replace i with (n + (i - n))%nat by lia.
  rewrite <- nth_skipn. apply nth_In. rewrite length_skipn. lia.
Qed.

Lemma skipn_In_from (a : list Q) n y :
  In y (skipn n a) -> exists i, (n <= i < length a)%nat /\ nth i a 0 = y.
Proof.
  intro H. destruct (In_nth _ y 0 H) as (i & Hi & E).
  rewrite length_skipn in Hi. rewrite nth_skipn in E.
  exists (n + i)%nat. split; [lia|exact E].
Qed.

(** X6.  Every stored sunset is one of the computed sunsets and is not
    before [mjd_start]; so every instant up to [mjd_start] is in night 0,
    and the observatory starts in night 0. *)
Theorem sunsets_start_at_mjd_start (c : Config) (w : World) :
  (forall b, In b (setting_sun_mjds c w) -> In b (setting w) /\ mjd_start c <= b) /\
  (forall m, m <= mjd_start c -> mjd2night c w m = 0%nat) /\
  night (init_state c w) = 0%nat.
Proof.
  assert (Hin : forall b, In b (setting_sun_mjds c w) ->
                          In b (setting w) /\ mjd_start c <= b).
  { intros b Hb. unfold setting_sun_mjds, generate_sunsets in Hb.
    destruct (sunset_rows (setting w)) as (Hs & Hrows & _).
    set (rows := unique_first _) in *.
    apply skipn_In_from in Hb. destruct Hb as (i & Hi & E). split.
    - assert (Hm : In b (map snd rows)) by (rewrite <- E; apply nth_In; lia).
      apply in_map_iff in Hm. destruct Hm as (r & <- & Hr). now apply Hrows.
    - rewrite <- E.
      apply (searchsorted_split (map snd rows) (mjd_start c)); [|exact Hi].
      apply strictly_ascending_le, keyed_sorted_ascending; [exact Hs|].
      apply Forall_forall. intros r Hr. now apply Hrows. }
  assert (Hzero : forall m, m <= mjd_start c -> mjd2night c w m = 0%nat).
  { intros m Hm. unfold mjd2night.
    rewrite searchsorted_count by apply generate_sunsets_ascending.
    apply count_below_none. intros b Hb.
    apply Qle_trans with (mjd_start c); [exact Hm|now apply Hin]. }
  split; [exact Hin|]. split; [exact Hzero|].
  apply Hzero. apply Qle_refl.
Qed.

Lemma sunsets_start_at_mjd_start_witness :
  mjd2night Demo.config Demo.clear_dark 59853 = 0%nat.
Proof.
  destruct (sunsets_start_at_mjd_start Demo.config Demo.clear_dark) as (_ & H & _).
  apply H. vm_compute. discriminate.
Defined.

(** X7.  The table keeps one sunset per hundredth of a day: two stored
    sunsets that round to the same hundredth are the same entry, and every
    computed sunset has its hundredth represented in the table unless the
    representative falls before [mjd_start]. *)
Theorem sunsets_one_per_hundredth (c : Config) (w : World) :
  (forall x y, In x (setting_sun_mjds c w) -> In y (setting_sun_mjds c w) ->
               round_half_even (x * 100) = round_half_even (y * 100) -> x = y) /\
  (forall x, In x (setting w) ->
             exists y, In y (setting w) /\
                       round_half_even (y * 100) = round_half_even (x * 100) /\
                       (In y (setting_sun_mjds c w) \/ y < mjd_start c)).
Proof.
  unfold setting_sun_mjds, generate_sunsets.
  destruct (sunset_rows (setting w)) as (Hs & Hrows & Hkeys).
  set (rows := unique_first _) in *.
  assert (Hasc : ascending (map snd rows)).
  { apply strictly_ascending_le, keyed_sorted_ascending; [exact Hs|].
    apply Forall_forall. intros r Hr. now apply Hrows. }
  split.
  - intros x y Hx Hy E.
    apply skipn_In_from in Hx, Hy.
    destruct Hx as (i & Hi & Ex), Hy as (j & Hj & Ey).
    assert (Hxm : In x (map snd rows)) by (rewrite <- Ex; apply nth_In; lia).
    assert (Hym : In y (map snd rows)) by (rewrite <- Ey; apply nth_In; lia).
    apply in_map_iff in Hxm, Hym.
    destruct Hxm as (r1 & <- & H1), Hym as (r2 & <- & H2).
    f_equal. apply (keyed_sorted_unique rows); try assumption.
    rewrite (proj1 (Hrows _ H1)), (proj1 (Hrows _ H2)). exact E.
  - intros x Hx. destruct (Hkeys x Hx) as (y & Hy).
    destruct (Hrows _ Hy) as [Hk Hset]. simpl in Hk, Hset.
    exists y. split; [exact Hset|]. split; [now symmetry|].
    assert (Hym : In y (map snd rows)).
    { apply in_map_iff. exists (round_half_even (x * 100), y). now split. }
    destruct (skipn_In_or _ (searchsorted (map snd rows) (mjd_start c)) _ Hym)
      as [H|(i & Hi & _ & E)]; [now left|right].
    rewrite <- E.
    now apply (searchsorted_split (map snd rows) (mjd_start c) Hasc).
Qed.

Lemma sunsets_one_per_hundredth_witness :
  exists y, In y (setting Demo.clear_dark) /\
            round_half_even (y * 100)
            = round_half_even ((59853950001 # 1000000) * 100) /\
            (In y (setting_sun_mjds Demo.config Demo.clear_dark) \/
             y < mjd_start Demo.config).
Proof.
  apply (sunsets_one_per_hundredth Demo.config Demo.clear_dark).
  simpl. tauto.
Defined.

(** ** Night numbers, entry by entry *)

Lemma searchsorted_le_length a v : (searchsorted a v <= length a)%nat.
Proof.
  unfold searchsorted. pose proof (bisect_range (length a) a v 0 (length a)). lia.
Qed.

Lemma searchsorted_at_entry a k :
  strictly_ascending a -> (k < length a)%nat -> searchsorted a (nth k a 0) = k.
Proof.
  intros Ha Hk.
  rewrite searchsorted_count by now apply strictly_ascending_le.
  apply split_at_count; [lia|]. split.
  - intros i Hi. apply Ha. lia.
  - intros i Hi. apply (strictly_ascending_le a Ha). lia.
Qed.

(** X8.  [mjd2night m] is the one index [k] that has every stored sunset
    before it strictly earlier than [m] and every stored sunset from it on
    at [m] or later: night [k] runs from just after sunset [k - 1] up to and
    including sunset [k]. *)
Theorem mjd2night_bracket (c : Config) (w : World) (m : Q) (k : nat) :
  mjd2night c w m = k <->
  (k <= length (setting_sun_mjds c w))%nat /\
  (forall j, (j < k)%nat -> nth j (setting_sun_mjds c w) 0 < m) /\
  (forall j, (k <= j < length (setting_sun_mjds c w))%nat ->
             m <= nth j (setting_sun_mjds c w) 0).
Proof.
  unfold mjd2night.
  pose proof (generate_sunsets_ascending (setting w) (mjd_start c)) as Ha.
  fold (setting_sun_mjds c w) in Ha.
  split.
  - intros <-. split; [apply searchsorted_le_length|].
    now apply searchsorted_split.
  - intros (Hk & Hlo & Hhi).
    rewrite searchsorted_count by exact Ha.
    apply split_at_count; [exact Hk|now split].
Qed.

(** X9.  The nights of the stored sunsets ([self.setting_sun_nights]) are
    0, 1, 2, ... in order: the sunset of index [k] is the last instant of
    night [k]. *)
Theorem setting_sun_nights_enumerate (c : Config) (w : World) :
  setting_sun_nights c w = seq 0 (length (setting_sun_mjds c w)) /\
  forall k, (k < length (setting_sun_mjds c w))%nat ->
            mjd2night c w (nth k (setting_sun_mjds c w) 0) = k.
Proof.
  assert (H : forall k, (k < length (setting_sun_mjds c w))%nat ->
                        mjd2night c w (nth k (setting_sun_mjds c w) 0) = k).
  { intros k Hk. unfold mjd2night. apply searchsorted_at_entry; [|exact Hk].
    apply generate_sunsets_strictly_ascending. }
  split; [|exact H].
  unfold setting_sun_nights.
  apply (nth_ext _ _ 0%nat 0%nat).
  - now rewrite length_map, length_seq.
  - intros n Hn. rewrite length_map in Hn.
    rewrite seq_nth by exact Hn. simpl.
    rewrite (nth_indep _ 0%nat (mjd2night c w 0)) by now rewrite length_map.
    rewrite map_nth. now apply H.
Qed.

Lemma setting_sun_nights_enumerate_witness :
  mjd2night Demo.config Demo.clear_dark
            (nth 2 (setting_sun_mjds Demo.config Demo.clear_dark) 0) = 2%nat.
Proof.
  apply (setting_sun_nights_enumerate Demo.config Demo.clear_dark).
  vm_compute. lia.
Defined.

(** ** The gate, in full *)

Section GateMore.

Variable c : Config.
Variable w : World.


Lemma good_mjds_later g m x : In x (good_mjds c w g m) -> m < x.
Proof.
  unfold good_mjds. rewrite in_map_iff. intros (r & <- & Hr).
  apply filter_In in Hr. destruct Hr as [_ Hr].
  apply andb_true_iff in Hr. destruct Hr as [Hr _].
  apply andb_true_iff in Hr. destruct Hr as [Hr _].
  now apply Qlt_bool_iff.
Qed.

Lemma cloud_step_pos : 0 < cloud_step_arg c -> 0 < cloud_step c.
Proof.
  intro H. unfold cloud_step.
  assert (0 < cloud_step_arg c / 60).
  { unfold Qdiv. apply Qmult_lt_0_compat; [exact H|reflexivity]. }
  unfold Qdiv at 1. apply Qmult_lt_0_compat; [assumption|reflexivity].
Qed.

(** A refusal always points to a later instant. *)
Lemma check_mjd_later s m verdict cand s' :
  0 < cloud_step_arg c ->
  check_mjd c w s m = ((verdict, cand), s') -> verdict = false -> m < cand.
Proof.
  intros Hstep H ->. unfold check_mjd in H.
  destruct (Qle_bool _ _).
  - injection H as <- _. pose proof (cloud_step_pos Hstep). lra.
  - destruct (_ || _); [|discriminate].
    match type of H with
    | context [good_mjds c w ?g m] =>
        pose proof (good_mjds_later g m) as Hl;
        destruct (good_mjds c w g m) as [|x xs]
    end.
    + injection H as <- _. lra.
    + injection H as <- _. apply Hl. now left.
Qed.

Lemma check_mjd_verdict s m :
  fst (fst (check_mjd c w s m)) =
  negb (Qle_bool (cloud_limit c) (get_cloud w (delta_t c s)))
  && negb (Qlt_bool (sun_limit c) (sun_alt w m)
           || in_down_nights w (mjd2night c w m)).
Proof.
  unfold check_mjd. destruct (Qle_bool _ _); [reflexivity|].
  destruct (night_cache s); destruct (_ || _);
    try destruct (good_mjds _ _ _ _); reflexivity.
Qed.

Lemma check_mjd_accepted_instant s m :
  fst (fst (check_mjd c w s m)) = true -> snd (fst (check_mjd c w s m)) = m.
Proof.
  unfold check_mjd. destruct (Qle_bool _ _); [discriminate|].
  destruct (night_cache s); destruct (_ || _);
    try destruct (good_mjds _ _ _ _); simpl; try discriminate; reflexivity.
Qed.

(** X10.  [check_mjd] accepts an instant exactly when the cloud fraction it
    obtains is below [cloud_limit], the sun at the instant is at or below
    [sun_limit] and the night of the instant is not closed; it then hands
    the instant back unchanged. *)
Theorem check_mjd_accepts_iff (s : State) (m : Q) :
  (fst (fst (check_mjd c w s m)) = true <->
   get_cloud w (delta_t c s) < cloud_limit c /\
   sun_alt w m <= sun_limit c /\
   in_down_nights w (mjd2night c w m) = false) /\
  (fst (fst (check_mjd c w s m)) = true -> snd (fst (check_mjd c w s m)) = m).
Proof.
  split.
  - rewrite check_mjd_verdict, andb_true_iff, !negb_true_iff, orb_false_iff.
    rewrite Qle_bool_false_iff, Qlt_bool_false_iff. tauto.
  - apply check_mjd_accepted_instant.
Qed.

(** X11.  With a positive [cloud_step], an instant that [check_mjd] refuses
    always comes with a strictly later instant to try next. *)
Theorem check_mjd_refusal_moves_on (s : State) (m : Q) :
  0 < cloud_step_arg c ->
  fst (fst (check_mjd c w s m)) = false ->
  m < snd (fst (check_mjd c w s m)).
Proof.
  intros Hstep Hv.
  destruct (check_mjd c w s m) as [[v cand] s'] eqn:E. simpl in *.
  now apply (check_mjd_later s m v cand s' Hstep E).
Qed.


End GateMore.

Lemma check_mjd_accepts_iff_witness :
  fst (fst (check_mjd Demo.config Demo.clear_dark (Demo.parked Demo.clear_dark)
                      (119707 # 2))) = true.
Proof.
  apply (check_mjd_accepts_iff Demo.config Demo.clear_dark).
  split; [reflexivity|]. split; [vm_compute; discriminate|vm_compute; reflexivity].
Defined.

Lemma check_mjd_refusal_moves_on_witness :
  119707 # 2 < snd (fst (check_mjd Demo.config Demo.clear_day
                                   (Demo.parked Demo.clear_day) (119707 # 2))).
Proof.
  apply (check_mjd_refusal_moves_on Demo.config Demo.clear_day).
  - reflexivity.
  - vm_compute. reflexivity.
Defined.

(** ** The status dict *)

Lemma lookup_map_In {A} (g : string -> A) ks f :
  In f ks -> lookup f (map (fun k => (k, g k)) ks) = Some (g f).
Proof.
  induction ks as [|k ks IH]; simpl; [tauto|].
  destruct (String.eqb_spec f k) as [->|Hne]; [reflexivity|].
  intros [E|H]; [now elim Hne|now apply IH].
Qed.

Lemma lookup_keys_none {A} (d : list (string * A)) f :
  ~ In f (map fst d) -> lookup f d = None.
Proof.
  induction d as [|[k v] d IH]; simpl; [reflexivity|].
  intro H. destruct (String.eqb_spec f k) as [->|Hne]; [elim H; now left|].
  apply IH. intro Hin. apply H. now right.
Qed.

Lemma lookup_keys_some {A} (d : list (string * A)) f :
  In f (map fst d) -> lookup f d <> None.
Proof.
  induction d as [|[k v] d IH]; simpl; [tauto|].
  destruct (String.eqb_spec f k) as [->|Hne]; [discriminate|].
  intros [E|H]; [now elim Hne|now apply IH].
Qed.

Lemma build_status_keyed c w s slew : status_keyed (build_status c w s slew).
Proof. split; reflexivity. Qed.

(** X13.  From the parked state [return_status] always returns.  Whenever
    it returns, it has stored the dict it returns, and that dict has a
    seeing entry for each of u, g, r, i, z, y, computed by the seeing model
    for the current clock and airmass map, and for no other filter name. *)
Theorem return_status_seeing_keys (c : Config) (w : World) (s : State) (f : string) :
  (ra s = None ->
   exists t, return_status c w s = Returned (with_status s (Some t)) t) /\
  (forall s' t,
      return_status c w s = Returned s' t ->
      status s' = Some t /\
      (In f filters ->
       lookup f (st_FWHMeff t)
       = Some (snd (get_seeing_singlefilter w (delta_t c s) f (returnAirmass w (mjd s)))) /\
       lookup f (st_FWHM_geometric t)
       = Some (snd (fst (get_seeing_singlefilter w (delta_t c s) f
                                                 (returnAirmass w (mjd s)))))) /\
      (~ In f filters ->
       lookup f (st_FWHMeff t) = None /\
       lookup f (st_FWHM_geometric t) = None)).
Proof.
  split.
  - intro Hra. unfold return_status, slewtime_map. rewrite Hra.
    eexists. reflexivity.
  - intros s' t. unfold return_status.
    destruct (slewtime_map w (all_sky w) s) as [e|slew]; [discriminate|].
    intro H. injection H as <- <-.
    split; [reflexivity|]. split.
    + intro Hf. cbn [build_status st_FWHMeff st_FWHM_geometric]. split.
      * apply (lookup_map_In
                 (fun k => snd (get_seeing_singlefilter w (delta_t c s) k
                                                        (returnAirmass w (mjd s))))).
        exact Hf.
      * apply (lookup_map_In
                 (fun k => snd (fst (get_seeing_singlefilter w (delta_t c s) k
                                                             (returnAirmass w (mjd s)))))).
        exact Hf.
    + intro Hf. destruct (build_status_keyed c w s slew) as [He Hg].
      split; apply lookup_keys_none; [rewrite He|rewrite Hg]; exact Hf.
Qed.

Lemma return_status_seeing_keys_witness :
  exists s' t,
    return_status Demo.config Demo.clear_dark (Demo.parked Demo.clear_dark)
    = Returned s' t /\
    status s' = Some t /\
    lookup "x" (st_FWHMeff t) = None.
Proof.
  destruct (return_status_seeing_keys Demo.config Demo.clear_dark
              (Demo.parked Demo.clear_dark) "x") as [Hret Hkeys].
  destruct (Hret eq_refl) as (t & Ht).
  destruct (Hkeys _ t Ht) as (Hst & _ & Hnone).
  eexists. exists t. split; [exact Ht|]. split; [exact Hst|].
  apply Hnone.
  simpl. intros [H|[H|[H|[H|[H|[H|[]]]]]]]; discriminate.
Defined.

(** ** What a visit records *)

Section Records.

Variable c : Config.
Variable w : World.

(** Every field of a record the commit branch hands back. *)
Lemma commit_record s req ft st total alt az s' o :
  commit c w s req ft st total alt az = Returned s' (Some o) ->
  exists t fe fg,
    status s' = Some t /\
    lookup (req_filter req) (st_FWHMeff t) = Some fe /\
    lookup (req_filter req) (st_FWHM_geometric t) = Some fg /\
    ob_request o = req /\
    ob_mjd o = mjd s + (ft + st) * sec2days /\
    ob_night o = mjd2night c w (ob_mjd o) /\
    ob_slewtime o = ft + st /\
    returnMags w (ob_mjd o) (raDec2Hpid w (req_RA req) (req_dec req)) (req_filter req)
    = Some (ob_skybrightness o) /\
    ob_FWHMeff o = fe (raDec2Hpid w (req_RA req) (req_dec req)) /\
    ob_FWHM_geometric o = fg (raDec2Hpid w (req_RA req) (req_dec req)) /\
    ob_airmass o = st_airmass t (raDec2Hpid w (req_RA req) (req_dec req)) /\
    ob_fivesigmadepth o
    = m5_flat_sed w (req_filter req) (ob_skybrightness o) (ob_FWHMeff o)
                  (req_exptime req) (ob_airmass o) /\
    ob_alt o = alt /\ ob_az o = az /\
    ob_clouds o = st_clouds t /\
    ob_sunAlt o = st_sunAlt t /\
    ob_moonAlt o = st_moonAlt t.
Proof.
  unfold commit, refresh_status, return_status.
  destruct (ra s) as [r0|].
  2: destruct (slewtime_map w (all_sky w) _) as [e|slew]; [discriminate|].
  all: cbv zeta;
    cbn [status with_filtername with_status with_pointing set_mjd with_clock];
    destruct (returnMags w _ _ _) as [sky|] eqn:Em; [|discriminate].
  - destruct (status s) as [t|] eqn:Et; [|discriminate].
    destruct (lookup (req_filter req) (st_FWHMeff t)) as [fe|] eqn:Ee; [|discriminate].
    destruct (lookup (req_filter req) (st_FWHM_geometric t)) as [fg|] eqn:Eg;
      [|discriminate].
    intro H. injection H as <- <-.
    exists t, fe, fg. simpl. rewrite Et, Em.
    repeat split; try reflexivity; assumption.
  - match goal with
    | |- context [lookup (req_filter req) (st_FWHMeff ?t)] =>
        destruct (lookup (req_filter req) (st_FWHMeff t)) as [fe|] eqn:Ee; [|discriminate];
        destruct (lookup (req_filter req) (st_FWHM_geometric t)) as [fg|] eqn:Eg;
          [|discriminate]
    end.
    intro H. injection H as <- <-.
    eexists _, fe, fg. simpl. rewrite Em.
    split; [reflexivity|]. split; [exact Ee|]. split; [exact Eg|].
    repeat split; reflexivity.
Qed.

(** A record handed back from the parked state comes with the dict
    [return_status] built at the start of the exposure. *)
Lemma commit_parked_status s req ft st total alt az s' r :
  ra s = None ->
  commit c w s req ft st total alt az = Returned s' r ->
  exists slew,
    status s' =
    Some (build_status c w
            (with_pointing (set_mjd c w s (mjd s + (ft + st) * sec2days))
                           (Some (req_RA req)) (Some (req_dec req))) slew).
Proof.
  intros Hra H.
  pose proof (commit_status c w s req ft st total alt az) as Hs.
  rewrite Hra in Hs. rewrite H in Hs. simpl in Hs.
  revert H. unfold commit, refresh_status, return_status. rewrite Hra.
  destruct (slewtime_map w (all_sky w) _) as [e|slew]; [discriminate|].
  intros _. now exists slew.
Qed.

End Records.

Section Visits.

Variable c : Config.
Variable w : World.

(** Every status dict the object ever stores comes from [return_status]. *)
Lemma reachable_status_keyed s :
  reachable c w s -> forall t, status s = Some t -> status_keyed t.
Proof.
  induction 1 as [|s m _ IH|s _ IH|s m _ IH|s req _ IH]; intros t Ht.
  - discriminate.
  - now apply IH.
  - unfold return_status in Ht.
    destruct (slewtime_map w (all_sky w) s) as [e|slew]; [now apply IH|].
    simpl in Ht. injection Ht as <-. apply build_status_keyed.
  - destruct (check_mjd_fields c w s m) as (_ & _ & _ & _ & _ & Hst).
    rewrite Hst in Ht. now apply IH.
  - rewrite attempt_observe_eq in Ht.
    destruct (visit_cost c w s req) as [e|[ft st]]; [now apply IH|].
    cbv zeta in Ht.
    destruct (check_mjd_fields c w s (mjd s + total_time c ft st req))
      as (_ & _ & Hra & _ & _ & Hst).
    destruct (fst (fst (check_mjd c w s _))).
    + rewrite commit_status, Hra, Hst in Ht.
      destruct (ra s); [now apply IH|].
      destruct (slewtime_map w (all_sky w) _) as [e|slew]; [now apply IH|].
      injection Ht as <-. apply build_status_keyed.
    + unfold reject in Ht. discriminate.
Qed.

(** X14.  A record handed back carries the request as it was given, the
    night of its own mjd, the target's alt/az as computed for the clock
    before the call, the sky brightness the sky model gives for the record's
    mjd at the target's pixel in the request's filter, and the depth
    computed from the record's own sky brightness, seeing and airmass. *)
Theorem visit_record_contents
        (s : State) (req : Request) (s' : State) (o : Observation) :
  attempt_observe c w s req = Returned s' (Some o) ->
  ob_request o = req /\
  ob_night o = mjd2night c w (ob_mjd o) /\
  (ob_alt o, ob_az o) = approx_RaDec2AltAz w (req_RA req) (req_dec req) (mjd s) /\
  returnMags w (ob_mjd o) (raDec2Hpid w (req_RA req) (req_dec req)) (req_filter req)
  = Some (ob_skybrightness o) /\
  ob_fivesigmadepth o
  = m5_flat_sed w (req_filter req) (ob_skybrightness o) (ob_FWHMeff o)
                (req_exptime req) (ob_airmass o).
Proof.
  intro H.
  destruct (returned_record _ _ _ _ _ _ H) as (ft & st & s1 & _ & _ & _ & Hc).
  destruct (commit_record _ _ _ _ _ _ _ _ _ _ _ Hc)
    as (t & fe & fg & _ & _ & _ & Hreq & _ & Hn & _ & Hm & _ & _ & _ & H5
        & Halt & Haz & _).
  split; [exact Hreq|]. split; [exact Hn|]. split; [|now split].
  rewrite Halt, Haz. unfold target_altaz. now destruct (approx_RaDec2AltAz _ _ _ _).
Qed.

(** X15.  A record handed back from the parked state has slew time 0 and
    starts at the clock before the call, and its cloud fraction, sun and
    moon altitude and airmass are the ones the cloud and sky models give for
    that instant: the status dict is computed afresh. *)
Theorem parked_visit_record
        (s : State) (req : Request) (s' : State) (o : Observation) :
  ra s = None ->
  attempt_observe c w s req = Returned s' (Some o) ->
  ob_slewtime o == 0 /\
  ob_mjd o == mjd s /\
  ob_clouds o = get_cloud w ((ob_mjd o - mjd_start c) * 24 * 3600) /\
  ob_sunAlt o = returnSunMoon_sunAlt w (ob_mjd o) /\
  ob_moonAlt o = returnSunMoon_moonAlt w (ob_mjd o) /\
  ob_airmass o = returnAirmass w (ob_mjd o) (raDec2Hpid w (req_RA req) (req_dec req)).
Proof.
  intros Hra H.
  destruct (returned_record _ _ _ _ _ _ H) as (ft & st & s1 & Hcost & Hs1 & _ & Hc).
  rewrite (visit_cost_parked c w s req Hra) in Hcost. injection Hcost as <- <-.
  destruct (check_mjd_fields c w s (mjd s + total_time c 0 0 req))
    as (Hm & _ & Hra1 & _).
  rewrite <- Hs1 in Hm, Hra1. rewrite Hra in Hra1.
  destruct (commit_parked_status c w s1 req 0 0 (total_time c 0 0 req)
              (fst (target_altaz w s req)) (snd (target_altaz w s req)) s' (Some o)
              Hra1 Hc) as (slew & Hst).
  destruct (commit_record _ _ _ _ _ _ _ _ _ _ _ Hc)
    as (t & fe & fg & Ht & _ & _ & _ & Hom & _ & Hsl & _ & _ & _ & Ham & _
        & _ & _ & Hcl & Hsun & Hmoon).
  rewrite Ht in Hst. injection Hst as ->.
  rewrite Hcl, Hsun, Hmoon, Ham, Hom, Hsl, Hm. simpl.
  repeat split; try reflexivity; ring.
Qed.

(** X16.  A record handed back from a tracking state takes its cloud
    fraction, sun and moon altitude and airmass from the status dict that
    was stored before the call, whenever that was computed, and leaves that
    dict in place. *)
Theorem tracking_visit_reuses_status
        (s : State) (req : Request) (s' : State) (o : Observation) (t : Status) :
  ra s <> None -> status s = Some t ->
  attempt_observe c w s req = Returned s' (Some o) ->
  status s' = Some t /\
  ob_clouds o = st_clouds t /\
  ob_sunAlt o = st_sunAlt t /\
  ob_moonAlt o = st_moonAlt t /\
  ob_airmass o = st_airmass t (raDec2Hpid w (req_RA req) (req_dec req)).
Proof.
  intros Hra Hst H.
  destruct (returned_record _ _ _ _ _ _ H) as (ft & st & s1 & _ & Hs1 & _ & Hc).
  destruct (check_mjd_fields c w s (mjd s + total_time c ft st req))
    as (_ & _ & Hra1 & _ & _ & Hst1).
  rewrite <- Hs1 in Hra1, Hst1.
  pose proof (commit_status c w s1 req ft st (total_time c ft st req)
                (fst (target_altaz w s req)) (snd (target_altaz w s req))) as Hcs.
  rewrite Hc, Hra1, Hst1, Hst in Hcs. simpl in Hcs.
  destruct (ra s) as [r|]; [|now elim Hra].
  destruct (commit_record _ _ _ _ _ _ _ _ _ _ _ Hc)
    as (t' & fe & fg & Ht & _ & _ & _ & _ & _ & _ & _ & _ & _ & Ham & _
        & _ & _ & Hcl & Hsun & Hmoon).
  rewrite Ht in Hcs. injection Hcs as ->.
  now repeat split.
Qed.

(** On the target, with a pixel in view at every instant, [slewtime_map]
    returns. *)
Lemma slewtime_map_in_view s r d :
  sky_in_view w ->
  exists m, slewtime_map w (all_sky w) (with_pointing s (Some r) (Some d)) = inr (Map m).
Proof.
  intro Hsky.
  apply slewtime_map_returns; [discriminate|discriminate|apply Hsky].
Qed.

(** The status dict the commit branch works with, with a pixel in view at
    every instant. *)
Lemma commit_works_with s req ft st total alt az :
  sky_in_view w ->
  (ra s <> None -> exists t, status s = Some t /\ status_keyed t) ->
  exists s3 t,
    status s3 = Some t /\ status_keyed t /\
    mjd s3 = mjd s + (ft + st) * sec2days /\
    ra s3 = Some (req_RA req) /\ dec s3 = Some (req_dec req) /\
    commit c w s req ft st total alt az =
    let f := req_filter req in
    let s4 := with_filtername s3 (Some f) in
    let hpid := raDec2Hpid w (req_RA req) (req_dec req) in
    match returnMags w (mjd s + (ft + st) * sec2days) hpid f with
    | None => Raised s4 KeyError
    | Some sky =>
        match lookup f (st_FWHMeff t), lookup f (st_FWHM_geometric t) with
        | Some fwhm_eff, Some fwhm_geom =>
            Returned
              (set_mjd c w s4 (mjd s4 + total - (ft + st) * sec2days))
              (Some {| ob_request := req;
                       ob_mjd := mjd s + (ft + st) * sec2days;
                       ob_night := night s4;
                       ob_slewtime := ft + st;
                       ob_skybrightness := sky;
                       ob_FWHMeff := fwhm_eff hpid;
                       ob_FWHM_geometric := fwhm_geom hpid;
                       ob_airmass := st_airmass t hpid;
                       ob_fivesigmadepth :=
                         m5_flat_sed w f sky (fwhm_eff hpid) (req_exptime req)
                                     (st_airmass t hpid);
                       ob_alt := alt;
                       ob_az := az;
                       ob_clouds := st_clouds t;
                       ob_sunAlt := st_sunAlt t;
                       ob_moonAlt := st_moonAlt t |})
        | _, _ => Raised s4 KeyError
        end
    end.
Proof.
  intros Hsky Hs. unfold commit, refresh_status, return_status.
  destruct (ra s) as [r0|].
  - destruct Hs as (t & Ht & Hk); [discriminate|].
    exists (with_pointing (set_mjd c w s (mjd s + (ft + st) * sec2days))
                          (Some (req_RA req)) (Some (req_dec req))), t.
    split; [exact Ht|]. split; [exact Hk|].
    split; [reflexivity|]. split; [reflexivity|]. split; [reflexivity|].
    cbv zeta. cbn [status with_filtername with_pointing set_mjd with_clock].
    rewrite Ht. reflexivity.
  - destruct (slewtime_map_in_view (set_mjd c w s (mjd s + (ft + st) * sec2days))
                (req_RA req) (req_dec req) Hsky) as (m & ->).
    exists (with_status
              (with_pointing (set_mjd c w s (mjd s + (ft + st) * sec2days))
                             (Some (req_RA req)) (Some (req_dec req)))
              (Some (build_status c w
                       (with_pointing (set_mjd c w s (mjd s + (ft + st) * sec2days))
                                      (Some (req_RA req)) (Some (req_dec req)))
                       (Map m)))),
           (build_status c w
              (with_pointing (set_mjd c w s (mjd s + (ft + st) * sec2days))
                             (Some (req_RA req)) (Some (req_dec req)))
              (Map m)).
    split; [reflexivity|]. split; [apply build_status_keyed|].
    split; [reflexivity|]. split; [reflexivity|]. split; [reflexivity|].
    reflexivity.
Qed.

(** The commit branch with a filter that has no entries. *)
Lemma commit_unsupported s req ft st total alt az :
  sky_in_view w ->
  ~ In (req_filter req) filters ->
  (ra s <> None -> exists t, status s = Some t /\ status_keyed t) ->
  exists s', commit c w s req ft st total alt az = Raised s' KeyError /\
             mjd s' = mjd s + (ft + st) * sec2days /\
             ra s' = Some (req_RA req) /\ dec s' = Some (req_dec req) /\
             filtername s' = Some (req_filter req).
Proof.
  intros Hsky Hf Hs.
  destruct (commit_works_with s req ft st total alt az Hsky Hs)
    as (s3 & t & Ht & (He & Hg) & Hm & Hr & Hd & ->).
  cbv zeta.
  destruct (returnMags w _ _ _) as [sky|].
  2: { eexists. split; [reflexivity|]. simpl. now repeat split. }
  rewrite (lookup_keys_none (st_FWHMeff t) (req_filter req)) by now rewrite He.
  eexists. split; [reflexivity|]. simpl. now repeat split.
Qed.

(** The commit branch with a filter that has entries everywhere. *)
Lemma commit_supported s req ft st total alt az :
  sky_in_view w ->
  In (req_filter req) filters ->
  (forall m h f, In f filters -> returnMags w m h f <> None) ->
  (ra s <> None -> exists t, status s = Some t /\ status_keyed t) ->
  exists s' o, commit c w s req ft st total alt az = Returned s' (Some o).
Proof.
  intros Hsky Hf Hmags Hs.
  destruct (commit_works_with s req ft st total alt az Hsky Hs)
    as (s3 & t & Ht & (He & Hg) & Hm & Hr & Hd & ->).
  cbv zeta.
  destruct (returnMags w _ _ (req_filter req)) as [sky|] eqn:Em;
    [|now elim (Hmags _ _ _ Hf Em)].
  destruct (lookup (req_filter req) (st_FWHMeff t)) as [fe|] eqn:Ee;
    [|elim (lookup_keys_some (st_FWHMeff t) (req_filter req)); [now rewrite He|exact Ee]].
  destruct (lookup (req_filter req) (st_FWHM_geometric t)) as [fg|] eqn:Eg;
    [|elim (lookup_keys_some (st_FWHM_geometric t) (req_filter req));
      [now rewrite Hg|exact Eg]].
  eexists. eexists. reflexivity.
Qed.

(** The commit branch entered parked under a sky without a pixel to slew
    to. *)
Lemma commit_no_pixel s req ft st total alt az :
  ra s = None ->
  (forall p m, In p (pixels (all_sky w)) ->
               fst (approx_RaDec2AltAz w (fst p) (snd p) m) < alt_limit (all_sky w)) ->
  commit c w s req ft st total alt az =
  Raised (with_pointing (set_mjd c w s (mjd s + (ft + st) * sec2days))
                        (Some (req_RA req)) (Some (req_dec req)))
         ValueError.
Proof.
  intros Hra Hlow. unfold commit, refresh_status, return_status. rewrite Hra.
  rewrite slewtime_map_no_pixel; [reflexivity|discriminate|discriminate|].
  intros p Hp. now apply Hlow.
Qed.

(** What the invariants give the commit branch to work with. *)
Lemma reachable_status_ready s m :
  sky_in_view w ->
  reachable c w s ->
  ra (snd (check_mjd c w s m)) <> None ->
  exists t, status (snd (check_mjd c w s m)) = Some t /\ status_keyed t.
Proof.
  intros Hsky Hreach Hra.
  destruct (check_mjd_fields c w s m) as (_ & _ & Hra1 & _ & _ & Hst).
  rewrite Hra1 in Hra. rewrite Hst.
  destruct (reachable_backed c w s Hsky Hreach Hra) as [_ Hne].
  destruct (status s) as [t|] eqn:Et; [|now elim Hne].
  exists t. split; [reflexivity|]. now apply (reachable_status_keyed s Hreach).
Qed.

(** X17.  From a state reached from [__init__] by [set_mjd],
    [return_status], [check_mjd] and [attempt_observe], with some pixel of
    the sky at or above [alt_limit] at every instant, a request for one of
    the filters u, g, r, i, z, y never ends in an exception when the sky
    model has magnitudes for these filters: the call returns, with a record
    exactly when the gate accepts the end of the visit. *)
Theorem supported_request_returns (s : State) (req : Request) :
  reachable c w s ->
  sky_in_view w ->
  In (req_filter req) filters ->
  (forall m h f, In f filters -> returnMags w m h f <> None) ->
  exists s' r ft st,
    attempt_observe c w s req = Returned s' r /\
    visit_cost c w s req = inr (ft, st) /\
    (r <> None <->
     fst (fst (check_mjd c w s (mjd s + total_time c ft st req))) = true).
Proof.
  intros Hreach Hsky Hf Hmags.
  destruct (reachable_invariants c w s Hreach) as (_ & Hp & _).
  rewrite attempt_observe_eq.
  destruct (visit_cost c w s req) as [e|[ft st]] eqn:Ec.
  - destruct (visit_cost_raises c w s req e Ec) as [Hr Hd].
    now elim (Hp Hr).
  - cbv zeta.
    destruct (fst (fst (check_mjd c w s (mjd s + total_time c ft st req)))) eqn:Ev.
    + destruct (commit_supported (snd (check_mjd c w s (mjd s + total_time c ft st req)))
                  req ft st (total_time c ft st req)
                  (fst (target_altaz w s req)) (snd (target_altaz w s req))
                  Hsky Hf Hmags)
        as (s' & o & Hc); [now apply reachable_status_ready|].
      exists s', (Some o), ft, st. rewrite Hc.
      split; [reflexivity|]. split; [reflexivity|].
      split; [intros _; exact Ev|discriminate].
    + unfold reject. eexists _, None, ft, st.
      split; [reflexivity|]. split; [reflexivity|].
      split; [intro H; now elim H|rewrite Ev; discriminate].
Qed.

(** X18.  From such a state, with some pixel of the sky at or above
    [alt_limit] at every instant, when the gate accepts but the request's
    filter is none of u, g, r, i, z, y, the call ends in a KeyError half-way
    through the commit: the clock is at the start of the exposure, the
    telescope points at the target and holds the request's filter. *)
Theorem unsupported_filter_raises_midway
        (s : State) (req : Request) (ft st : Q) :
  reachable c w s ->
  sky_in_view w ->
  visit_cost c w s req = inr (ft, st) ->
  fst (fst (check_mjd c w s (mjd s + total_time c ft st req))) = true ->
  ~ In (req_filter req) filters ->
  exists s', attempt_observe c w s req = Raised s' KeyError /\
             mjd s' = mjd s + (ft + st) * sec2days /\
             ra s' = Some (req_RA req) /\ dec s' = Some (req_dec req) /\
             filtername s' = Some (req_filter req).
Proof.
  intros Hreach Hsky Hcost Hv Hf.
  destruct (check_mjd_fields c w s (mjd s + total_time c ft st req)) as (Hm & _).
  rewrite attempt_observe_eq, Hcost. cbv zeta. rewrite Hv.
  destruct (commit_unsupported (snd (check_mjd c w s (mjd s + total_time c ft st req)))
              req ft st (total_time c ft st req)
              (fst (target_altaz w s req)) (snd (target_altaz w s req)) Hsky Hf)
    as (s' & Hc & Hm' & Hr & Hd & Hf');
    [now apply reachable_status_ready|].
  exists s'. rewrite Hm in Hm'. now repeat split.
Qed.

(** X19.  Under a sky none of whose pixels ever reaches [alt_limit], a visit
    from the parked state that the gate accepts ends in the ValueError of
    [slewtime_map], whatever the request: [return_status] is called with the
    telescope already on the target and fails before it stores anything.
    The clock is where it was, the telescope points at the target, and
    filter and status dict are as before the call. *)
Theorem parked_visit_needs_a_pixel (s : State) (req : Request) :
  ra s = None ->
  fst (fst (check_mjd c w s (mjd s + total_time c 0 0 req))) = true ->
  (forall p m, In p (pixels (all_sky w)) ->
               fst (approx_RaDec2AltAz w (fst p) (snd p) m) < alt_limit (all_sky w)) ->
  exists s', attempt_observe c w s req = Raised s' ValueError /\
             mjd s' == mjd s /\
             ra s' = Some (req_RA req) /\ dec s' = Some (req_dec req) /\
             filtername s' = filtername s /\ status s' = status s.
Proof.
  intros Hra Hv Hlow.
  destruct (check_mjd_fields c w s (mjd s + total_time c 0 0 req))
    as (Hm & _ & Hra1 & _ & Hfn & Hst).
  rewrite attempt_observe_eq, (visit_cost_parked c w s req Hra). cbv zeta.
  rewrite Hv, commit_no_pixel by (rewrite ?Hra1; assumption).
  eexists. split; [reflexivity|]. simpl.
  rewrite Hm, Hfn, Hst. repeat split; try reflexivity. ring.
Qed.

(** X20.  With a positive [cloud_step] and non-negative read, shutter,
    filter-change and slew times, every call for at least one exposure of
    positive length that returns, with a record or without, leaves the clock
    strictly later than it found it. *)
Theorem returning_attempt_advances_clock
        (s : State) (req : Request) (s' : State) (r : option Observation) :
  (1 <= req_nexp req)%Z -> 0 < req_exptime req ->
  0 <= readtime c -> 0 <= shutter_time c -> 0 <= f_change_time c ->
  (forall a b a' b', 0 <= slew_interp w a b a' b') ->
  0 < cloud_step_arg c ->
  attempt_observe c w s req = Returned s' r ->
  mjd s < mjd s'.
Proof.
  intros Hn He Hr Hsh Hf Hsl Hstep H.
  destruct r as [o|].
  - destruct (returned_record _ _ _ _ _ _ H) as (ft & st & s1 & Hcost & Hs1 & _ & Hc).
    destruct (visit_cost_nonneg c w s req ft st Hf Hsl Hcost) as [Hft Hst].
    pose proof (total_time_positive c ft st req Hn He Hr Hsh Hft Hst) as Hpos.
    destruct (check_mjd_fields c w s (mjd s + total_time c ft st req)) as (Hm & _).
    rewrite <- Hs1 in Hm.
    destruct (commit_success _ _ _ _ _ _ _ _ _ _ _ Hc)
      as (o' & t & _ & _ & _ & _ & _ & _ & _ & _ & _ & _ & Hend & _).
    rewrite Hend, Hm. lra.
  - destruct (returned_nothing _ _ _ _ _ H) as (ft & st & s1 & Hcost & Hcheck & _).
    destruct (visit_cost_nonneg c w s req ft st Hf Hsl Hcost) as [Hft Hst].
    pose proof (total_time_positive c ft st req Hn He Hr Hsh Hft Hst) as Hpos.
    pose proof (check_mjd_later c w s _ _ _ _ Hstep Hcheck eq_refl) as Hl.
    lra.
Qed.

End Visits.

Lemma demo_mags_total m h f : In f filters -> Demo.mags m h f <> None.
Proof.
  unfold filters. simpl.
  intros [<-|[<-|[<-|[<-|[<-|[<-|[]]]]]]]; discriminate.
Qed.

Lemma visit_record_contents_witness :
  exists s' o,
    attempt_observe Demo.config Demo.clear_dark (Demo.parked Demo.clear_dark) Demo.request
    = Returned s' (Some o) /\
    ob_request o = Demo.request /\
    ob_night o = mjd2night Demo.config Demo.clear_dark (ob_mjd o).
Proof.
  eexists. eexists. split; [vm_compute; reflexivity|].
  match goal with
  | |- ob_request ?o = _ /\ _ =>
      destruct (visit_record_contents Demo.config Demo.clear_dark
                  (Demo.parked Demo.clear_dark) Demo.request _ o
                  ltac:(vm_compute; reflexivity))
        as (Hreq & Hn & _)
  end.
  split; [exact Hreq|exact Hn].
Defined.

Lemma parked_visit_record_witness :
  exists s' o,
    attempt_observe Demo.config Demo.clear_dark (Demo.parked Demo.clear_dark) Demo.request
    = Returned s' (Some o) /\
    ra (Demo.parked Demo.clear_dark) = None /\
    ob_slewtime o == 0 /\ ob_mjd o == mjd (Demo.parked Demo.clear_dark).
Proof.
  eexists. eexists. split; [vm_compute; reflexivity|].
  split; [reflexivity|].
  match goal with
  | |- ob_slewtime ?o == _ /\ _ =>
      destruct (parked_visit_record Demo.config Demo.clear_dark
                  (Demo.parked Demo.clear_dark) Demo.request _ o
                  eq_refl ltac:(vm_compute; reflexivity))
        as (Hs & Hm & _)
  end.
  split; [exact Hs|exact Hm].
Defined.

Lemma tracking_visit_reuses_status_witness :
  exists s' o t,
    attempt_observe Demo.config Demo.clear_dark Demo.tracking Demo.request
    = Returned s' (Some o) /\
    status Demo.tracking = Some t /\
    status s' = Some t /\ ob_clouds o = st_clouds t.
Proof.
  eexists. eexists. eexists. split; [vm_compute; reflexivity|].
  split; [vm_compute; reflexivity|].
  match goal with
  | |- status ?s' = Some ?t /\ ob_clouds ?o = _ =>
      destruct (tracking_visit_reuses_status Demo.config Demo.clear_dark
                  Demo.tracking Demo.request s' o t
                  ltac:(vm_compute; discriminate)
                  ltac:(vm_compute; reflexivity)
                  ltac:(vm_compute; reflexivity))
        as (Hst & Hcl & _)
  end.
  split; [exact Hst|exact Hcl].
Defined.

Lemma demo_sky_in_view cloud sun closed : sky_in_view (Demo.world cloud sun closed).
Proof.
  intro m. exists (0, 1 # 2). split; [now left|vm_compute; discriminate].
Qed.

Lemma supported_request_returns_witness :
  exists s' r ft st,
    attempt_observe Demo.config Demo.clear_dark Demo.tracking Demo.request
    = Returned s' r /\
    visit_cost Demo.config Demo.clear_dark Demo.tracking Demo.request = inr (ft, st) /\
    (r <> None <->
     fst (fst (check_mjd Demo.config Demo.clear_dark Demo.tracking
                         (mjd Demo.tracking
                          + total_time Demo.config ft st Demo.request))) = true).
Proof.
  apply (supported_request_returns Demo.config Demo.clear_dark Demo.tracking Demo.request).
  - apply reach_attempt_observe, reach_init.
  - apply demo_sky_in_view.
  - simpl. tauto.
  - apply demo_mags_total.
Defined.

Lemma unsupported_filter_raises_midway_witness :
  exists s',
    attempt_observe Demo.config Demo.clear_dark (Demo.parked Demo.clear_dark)
                    {| req_RA := 0; req_dec := 0; req_filter := "x";
                       req_exptime := 30; req_nexp := 2 |}
    = Raised s' KeyError /\
    mjd s' = mjd (Demo.parked Demo.clear_dark) + (0 + 0) * sec2days /\
    ra s' = Some 0 /\ dec s' = Some 0 /\ filtername s' = Some "x"%string.
Proof.
  apply (unsupported_filter_raises_midway Demo.config Demo.clear_dark
           (Demo.parked Demo.clear_dark)
           {| req_RA := 0; req_dec := 0; req_filter := "x";
              req_exptime := 30; req_nexp := 2 |} 0 0).
  - apply reach_init.
  - apply demo_sky_in_view.
  - vm_compute. reflexivity.
  - vm_compute. reflexivity.
  - simpl. intros [H|[H|[H|[H|[H|[H|[]]]]]]]; discriminate.
Defined.

Lemma parked_visit_needs_a_pixel_witness :
  exists s',
    attempt_observe Demo.config Demo.clear_dark_low (Demo.parked Demo.clear_dark_low)
                    Demo.request = Raised s' ValueError /\
    mjd s' == mjd (Demo.parked Demo.clear_dark_low) /\
    ra s' = Some (req_RA Demo.request) /\
    dec s' = Some (req_dec Demo.request) /\
    filtername s' = filtername (Demo.parked Demo.clear_dark_low) /\
    status s' = status (Demo.parked Demo.clear_dark_low).
Proof.
  apply (parked_visit_needs_a_pixel Demo.config Demo.clear_dark_low
           (Demo.parked Demo.clear_dark_low) Demo.request).
  - reflexivity.
  - vm_compute. reflexivity.
  - intros p m Hp. simpl in Hp.
    destruct Hp as [<-|[<-|[<-|[]]]]; vm_compute; reflexivity.
Defined.

Lemma mjd2night_bracket_witness :
  mjd2night Demo.config Demo.clear_dark (119709 # 2) = 1%nat.
Proof.
  apply (mjd2night_bracket Demo.config Demo.clear_dark (119709 # 2) 1).
  split; [vm_compute; lia|]. split.
  - intros j Hj. assert (j = 0%nat) by lia. subst j. vm_compute. reflexivity.
  - intros j Hj.
    assert (Hl : length (setting_sun_mjds Demo.config Demo.clear_dark) = 3%nat)
      by (vm_compute; reflexivity).
    rewrite Hl in Hj.
    assert (j = 1%nat \/ j = 2%nat) as [-> | ->] by lia; vm_compute; discriminate.
Defined.

Lemma returning_attempt_advances_clock_witness :
  exists s',
    attempt_observe Demo.config Demo.clear_day (Demo.parked Demo.clear_day) Demo.request
    = Returned s' None /\
    mjd (Demo.parked Demo.clear_day) < mjd s'.
Proof.
  eexists. split; [vm_compute; reflexivity|].
  apply (returning_attempt_advances_clock Demo.config Demo.clear_day
           (Demo.parked Demo.clear_day) Demo.request _ None).
  - simpl. lia.
  - reflexivity.
  - discriminate.
  - discriminate.
  - discriminate.
  - intros. discriminate.
  - reflexivity.
  - vm_compute. reflexivity.
Defined.

(** ** The all-sky slew map *)

Lemma scatter_filter {A} (g : A -> bool) (f : A -> Q) (l : list A) :
  scatter (map g l) (map f (filter g l))
  = map (fun x => if g x then f x else UNSEEN) l.
Proof.
  induction l as [|x l IH]; simpl; [reflexivity|].
  destruct (g x); simpl; now rewrite IH.
Qed.

Lemma combine_fst_snd {A B} (l : list (A * B)) :
  combine (map fst l) (map snd l) = l.
Proof.
  induction l as [|[a b] l IH]; simpl; [reflexivity|now rewrite IH].
Qed.

Lemma nth_map_within {A B} (f : A -> B) l i d d' :
  (i < length l)%nat -> nth i (map f l) d' = f (nth i l d).
Proof.
  intro H. rewrite (nth_indep _ d' (f d)) by now rewrite length_map.
  apply map_nth.
Qed.

Lemma np_max_none l : np_max l = None -> l = [].
Proof.
  destruct l as [|x l]; [reflexivity|].
  simpl. destruct (np_max l); discriminate.
Qed.

(** [np_max] is an entry of the array, and no entry is larger. *)
Lemma np_max_spec l : forall m,
  np_max l = Some m -> In m l /\ forall x, In x l -> x <= m.
Proof.
  induction l as [|x l IH]; intros m; simpl; [discriminate|].
  destruct (np_max l) as [m'|] eqn:E.
  - destruct (IH m' eq_refl) as [Hin Hub].
    destruct (Qlt_bool m' x) eqn:Elt; intro H; injection H as <-.
    + apply Qlt_bool_iff in Elt. split; [now left|].
      intros y [<-|Hy]; [apply Qle_refl|]. specialize (Hub y Hy). lra.
    + apply Qlt_bool_false_iff in Elt. split; [now right|].
      intros y [<-|Hy]; [exact Elt|now apply Hub].
  - intro H. injection H as <-. apply np_max_none in E. subst l.
    split; [now left|]. intros y [<-|[]]. apply Qle_refl.
Qed.

(** X21.  For a telescope that points somewhere, with at least one pixel at
    or above [alt_limit], [slewtime_map] returns one entry per pixel.  The
    pixels under the limit hold [UNSEEN].  The others hold all the fixed
    minimum of 2 s when the telescope's own alt equals the largest alt among
    them and its az the largest az among them, and otherwise each the
    interpolated slew time from the telescope's position to the pixel. *)
Theorem slewtime_map_contents (w : World) (sky : AllSky) (s : State) (r d : Q) :
  let alt_of := fun p : Q * Q => fst (approx_RaDec2AltAz w (fst p) (snd p) (mjd s)) in
  let az_of := fun p : Q * Q => snd (approx_RaDec2AltAz w (fst p) (snd p) (mjd s)) in
  let current_alt := fst (approx_RaDec2AltAz w r d (mjd s)) in
  let current_az := snd (approx_RaDec2AltAz w r d (mjd s)) in
  let pixel := fun i => nth i (pixels sky) (0, 0) in
  ra s = Some r -> dec s = Some d ->
  (exists p, In p (pixels sky) /\ alt_limit sky <= alt_of p) ->
  exists m max_alt max_az,
    slewtime_map w sky s = inr (Map m) /\
    length m = length (pixels sky) /\
    (exists p, In p (pixels sky) /\ alt_limit sky <= alt_of p /\ alt_of p = max_alt) /\
    (forall p, In p (pixels sky) -> alt_limit sky <= alt_of p -> alt_of p <= max_alt) /\
    (exists p, In p (pixels sky) /\ alt_limit sky <= alt_of p /\ az_of p = max_az) /\
    (forall p, In p (pixels sky) -> alt_limit sky <= alt_of p -> az_of p <= max_az) /\
    (forall i, (i < length (pixels sky))%nat ->
       alt_of (pixel i) < alt_limit sky -> nth i m 0 = UNSEEN) /\
    (current_alt == max_alt /\ current_az == max_az ->
     forall i, (i < length (pixels sky))%nat ->
       alt_limit sky <= alt_of (pixel i) -> nth i m 0 = mintime) /\
    (~ (current_alt == max_alt /\ current_az == max_az) ->
     forall i, (i < length (pixels sky))%nat ->
       alt_limit sky <= alt_of (pixel i) ->
       nth i m 0 = slew_interp w current_alt current_az
                               (alt_of (pixel i)) (az_of (pixel i))).
Proof.
  intros alt_of az_of current_alt current_az pixel Hr Hd (p & Hp & Hv).
  unfold slewtime_map, slew_time_arrays. rewrite Hr, Hd.
  subst current_alt current_az.
  destruct (approx_RaDec2AltAz w r d (mjd s)) as [ca cz]. simpl fst. simpl snd.
  set (altaz := map (fun p => approx_RaDec2AltAz w (fst p) (snd p) (mjd s)) (pixels sky)).
  set (good := fun a : Q * Q => Qle_bool (alt_limit sky) (fst a)).
  assert (Hup : forall q, In q (pixels sky) -> alt_limit sky <= alt_of q ->
                          In (approx_RaDec2AltAz w (fst q) (snd q) (mjd s))
                             (filter good altaz)).
  { intros q Hq Hhigh. apply filter_In. split.
    - unfold altaz.
      now apply (in_map (fun p => approx_RaDec2AltAz w (fst p) (snd p) (mjd s))).
    - unfold good. now apply Qle_bool_iff. }
  assert (Hdown : forall a, In a (filter good altaz) ->
                            exists q, In q (pixels sky) /\ alt_limit sky <= alt_of q /\
                                      a = approx_RaDec2AltAz w (fst q) (snd q) (mjd s)).
  { intros a Ha. apply filter_In in Ha. destruct Ha as [Ha Hg].
    unfold altaz in Ha. apply in_map_iff in Ha. destruct Ha as (q & <- & Hq).
    exists q. split; [exact Hq|]. split; [|reflexivity].
    unfold good in Hg. now apply Qle_bool_iff in Hg. }
  assert (Hseen : exists a rest, filter good altaz = a :: rest).
  { pose proof (Hup p Hp Hv) as Hin.
    destruct (filter good altaz) as [|a rest]; [destruct Hin|now exists a, rest]. }
  destruct Hseen as (a & rest & Hseen).
  assert (Hnth : forall i, (i < length (pixels sky))%nat ->
            nth i altaz (0, 0)
            = approx_RaDec2AltAz w (fst (pixel i)) (snd (pixel i)) (mjd s)).
  { intros i Hi. unfold altaz, pixel.
    now rewrite (nth_map_within _ (pixels sky) i (0, 0) (0, 0)). }
  assert (Hlen : length altaz = length (pixels sky)) by (unfold altaz; apply length_map).
  destruct (np_max (map fst (filter good altaz))) as [ma|] eqn:Hma.
  2: { apply np_max_none in Hma. rewrite Hseen in Hma. discriminate. }
  destruct (np_max (map snd (filter good altaz))) as [mz|] eqn:Hmz.
  2: { apply np_max_none in Hmz. rewrite Hseen in Hmz. discriminate. }
  destruct (np_max_spec _ _ Hma) as [Hain Haub].
  destruct (np_max_spec _ _ Hmz) as [Hzin Hzub].
  assert (Hmaxalt : (exists q, In q (pixels sky) /\ alt_limit sky <= alt_of q /\
                               alt_of q = ma) /\
                    (forall q, In q (pixels sky) -> alt_limit sky <= alt_of q ->
                               alt_of q <= ma)).
  { split.
    - apply in_map_iff in Hain. destruct Hain as (a0 & <- & Ha0).
      destruct (Hdown a0 Ha0) as (q & Hq & Hhigh & ->). now exists q.
    - intros q Hq Hhigh. apply Haub.
      exact (in_map fst _ _ (Hup q Hq Hhigh)). }
  assert (Hmaxaz : (exists q, In q (pixels sky) /\ alt_limit sky <= alt_of q /\
                              az_of q = mz) /\
                   (forall q, In q (pixels sky) -> alt_limit sky <= alt_of q ->
                              az_of q <= mz)).
  { split.
    - apply in_map_iff in Hzin. destruct Hzin as (a0 & <- & Ha0).
      destruct (Hdown a0 Ha0) as (q & Hq & Hhigh & ->). now exists q.
    - intros q Hq Hhigh. apply Hzub.
      exact (in_map snd _ _ (Hup q Hq Hhigh)). }
  destruct Hmaxalt as [Haltin Haltub]. destruct Hmaxaz as [Hazin Hazub].
  assert (Hlow : forall f i, (i < length (pixels sky))%nat ->
                   alt_of (pixel i) < alt_limit sky ->
                   nth i (map (fun x => if good x then f x else UNSEEN) altaz) 0 = UNSEEN).
  { intros f i Hi Hl.
    rewrite (nth_map_within _ altaz i (0, 0) 0) by now rewrite Hlen.
    rewrite (Hnth i Hi). unfold good.
    unfold alt_of in Hl. apply Qle_bool_false_iff in Hl. now rewrite Hl. }
  assert (Hhigh : forall f i, (i < length (pixels sky))%nat ->
                   alt_limit sky <= alt_of (pixel i) ->
                   nth i (map (fun x => if good x then f x else UNSEEN) altaz) 0
                   = f (approx_RaDec2AltAz w (fst (pixel i)) (snd (pixel i)) (mjd s))).
  { intros f i Hi Hh.
    rewrite (nth_map_within _ altaz i (0, 0) 0) by now rewrite Hlen.
    rewrite (Hnth i Hi). unfold good.
    unfold alt_of in Hh. apply Qle_bool_iff in Hh. now rewrite Hh. }
  destruct (Qeq_bool ca ma && Qeq_bool cz mz) eqn:Eq.
  - exists (map (fun g : bool => if g then mintime else UNSEEN) (map good altaz)), ma, mz.
    split; [reflexivity|]. rewrite map_map, length_map.
    split; [exact Hlen|]. split; [exact Haltin|]. split; [exact Haltub|].
    split; [exact Hazin|]. split; [exact Hazub|].
    split; [apply (Hlow (fun _ => mintime))|]. split.
    + intros _. apply (Hhigh (fun _ => mintime)).
    + intros Hne. elim Hne. apply andb_true_iff in Eq. destruct Eq as [E1 E2].
      split; now apply Qeq_bool_iff.
  - exists (scatter (map good altaz)
                    (map (fun q => slew_interp w ca cz (fst q) (snd q))
                         (combine (map fst (filter good altaz))
                                  (map snd (filter good altaz))))), ma, mz.
    split; [reflexivity|].
    rewrite combine_fst_snd.
    rewrite (scatter_filter good (fun q => slew_interp w ca cz (fst q) (snd q)) altaz).
    rewrite length_map.
    split; [exact Hlen|]. split; [exact Haltin|]. split; [exact Haltub|].
    split; [exact Hazin|]. split; [exact Hazub|].
    split; [apply (Hlow (fun q => slew_interp w ca cz (fst q) (snd q)))|]. split.
    + intros [E1 E2]. apply Qeq_bool_iff in E1, E2. rewrite E1, E2 in Eq. discriminate.
    + intros _ i Hi Hh.
      apply (Hhigh (fun q => slew_interp w ca cz (fst q) (snd q)) i Hi Hh).
Qed.

Lemma slewtime_map_contents_witness :
  exists m,
    slewtime_map Demo.clear_dark demo_sky Demo.tracking = inr (Map m) /\
    length m = 3%nat /\ nth 1 m 0 = UNSEEN /\ nth 0 m 0 = 7.
Proof.
  destruct (slewtime_map_contents Demo.clear_dark demo_sky Demo.tracking
              0 (- (5236 # 10000)))
    as (m & ma & mz & Hm & Hlen & _ & Hub & _ & _ & Hlow & _ & Hfar).
  - vm_compute. reflexivity.
  - vm_compute. reflexivity.
  - exists (0, 1 # 2). split; [now left|vm_compute; discriminate].
  - exists m. split; [exact Hm|]. split; [exact Hlen|]. split.
    + apply Hlow; [simpl; lia|vm_compute; reflexivity].
    + rewrite Hfar; [reflexivity| |simpl; lia|vm_compute; discriminate].
      intros [Ha _].
      pose proof (Hub (0, 1 # 2) ltac:(now left) ltac:(vm_compute; discriminate))
        as Hle.
      assert (Ecur : fst (approx_RaDec2AltAz Demo.clear_dark 0 (- (5236 # 10000))
                                             (mjd Demo.tracking)) = 4764 # 10000)
        by (vm_compute; reflexivity).
      assert (Epix : fst (approx_RaDec2AltAz Demo.clear_dark (fst (0, 1 # 2))
                                             (snd (0, 1 # 2)) (mjd Demo.tracking))
                     = 3 # 2)
        by (vm_compute; reflexivity).
      rewrite Ecur in Ha. rewrite Epix in Hle. lra.
Defined.

(** X22.  [slewtime_map] returns the float 0 for a parked telescope, and for
    a telescope that points somewhere while every pixel is under
    [alt_limit] it ends in the ValueError of a maximum over nothing. *)
Theorem slewtime_map_edges (w : World) (sky : AllSky) (s : State) :
  (ra s = None -> slewtime_map w sky s = inr (Scalar 0)) /\
  (ra s <> None -> dec s <> None ->
   (forall p, In p (pixels sky) ->
              fst (approx_RaDec2AltAz w (fst p) (snd p) (mjd s)) < alt_limit sky) ->
   slewtime_map w sky s = inl MapValueError).
Proof.
  unfold slewtime_map. split.
  - intros ->. reflexivity.
  - intros Hr Hd Hlow.
    destruct (ra s) as [r|] eqn:Er; [|now elim Hr].
    destruct (dec s) as [d|] eqn:Ed; [|now elim Hd].
    assert (Hnone : filter (fun a : Q * Q => Qle_bool (alt_limit sky) (fst a))
                      (map (fun p => approx_RaDec2AltAz w (fst p) (snd p) (mjd s))
                           (pixels sky)) = []).
    { induction (pixels sky) as [|p l IH]; simpl; [reflexivity|].
      assert (Hp : Qle_bool (alt_limit sky)
                     (fst (approx_RaDec2AltAz w (fst p) (snd p) (mjd s))) = false)
        by (apply Qle_bool_false_iff, Hlow; now left).
      rewrite Hp. apply IH. intros q Hq. apply Hlow. now right. }
    rewrite Hnone. unfold slew_time_arrays. rewrite Er, Ed.
    now destruct (approx_RaDec2AltAz w r d (mjd s)).
Qed.

Lemma slewtime_map_edges_witness :
  slewtime_map Demo.clear_dark demo_sky (Demo.parked Demo.clear_dark) = inr (Scalar 0).
Proof.
  apply (slewtime_map_edges Demo.clear_dark demo_sky (Demo.parked Demo.clear_dark)).
  reflexivity.
Defined.
